(** * python-protoc-exe: the release mirror ([redist]) and the wheel script

    A shallow embedding of
    - [src/redist/release.py] ([Asset], [Release]),
    - [src/redist/http.py]    (the session credential),
    - [src/redist/repo.py]    ([GHRepo.releases], [GHSrcRepo.releases]),
    - [redist.py]             ([map_platform], the asset loop of [build],
                               [ReproducibleWheelFile.writestr], the entry
                               loop of [assemble]).

    Python [str] is [string]; a [dict] used as a map is a [gmap]; tuples and
    materialised sequences are lists; a generator that talks to the network
    is the finite trace of what it does ([Gen]); an exception is a value of
    [Exception] carried by [Exc] or by the end of a trace. *)

From Stdlib Require Import String Ascii List ZArith Bool Lia.
From stdpp Require Import base strings gmap.
Import ListNotations.

Local Open Scope string_scope.

(* stdpp freezes string concatenation under [simpl]; the proofs below
   compute with it. *)
#[local] Arguments String.append !_ _ : simpl nomatch.

(** ** Exceptions and fallible results *)

Inductive Exception : Type :=
| HTTPError (status : Z)          (* requests.HTTPError, from raise_for_status *)
| ValueError (what : string).     (* str.index miss, malformed JSON *)

Inductive Exc (A : Type) : Type :=
| Ok (a : A)
| Raised (e : Exception).
Arguments Ok {A} a.
Arguments Raised {A} e.

Definition bind {A B} (m : Exc A) (k : A -> Exc B) : Exc B :=
  match m with
  | Ok a => k a
  | Raised e => Raised e
  end.

Notation "'let*' x ':=' m 'in' k" := (bind m (fun x => k))
  (at level 10, x name, m at level 100, k at level 200).

(** ** The [str] methods the program calls *)

Module PyStr.

(** [s.startswith(p)] *)
Fixpoint startswith (p s : string) : bool :=
  match p, s with
  | EmptyString, _ => true
  | String a p', String b s' => Ascii.eqb a b && startswith p' s'
  | String _ _, EmptyString => false
  end.

(** [s[n:]] *)
Fixpoint drop (n : nat) (s : string) : string :=
  match n, s with
  | O, _ => s
  | S n', String _ s' => drop n' s'
  | S _, EmptyString => EmptyString
  end.

(** [s[:n]] *)
Fixpoint take (n : nat) (s : string) : string :=
  match n, s with
  | S n', String a s' => String a (take n' s')
  | _, _ => EmptyString
  end.

(** [s.endswith(p)] *)
Definition endswith (p s : string) : bool :=
  (String.length p <=? String.length s)%nat
  && String.eqb (drop (String.length s - String.length p) s) p.

(** [s.removeprefix(p)]: one occurrence, only if present. *)
Definition removeprefix (p s : string) : string :=
  if startswith p s then drop (String.length p) s else s.

(** [s.removesuffix(p)] *)
Definition removesuffix (p s : string) : string :=
  match p with
  | EmptyString => s
  | _ => if endswith p s
         then take (String.length s - String.length p) s
         else s
  end.

(** [s.find(c)] for a one-character needle: the lowest index, if any. *)
Fixpoint find (c : ascii) (s : string) : option nat :=
  match s with
  | EmptyString => None
  | String a s' => if Ascii.eqb a c then Some O
                   else option_map S (find c s')
  end.

(** [s.index(c)]: as [find], but a miss raises [ValueError]. *)
Definition index (c : ascii) (s : string) : Exc nat :=
  match find c s with
  | Some i => Ok i
  | None => Raised (ValueError "substring not found")
  end.

(** [s.rstrip(c)] for a one-character set. *)
Fixpoint rstrip (c : ascii) (s : string) : string :=
  match s with
  | EmptyString => EmptyString
  | String a s' =>
      match rstrip c s' with
      | EmptyString => if Ascii.eqb a c then EmptyString
                       else String a EmptyString
      | t => String a t
      end
  end.

End PyStr.

(** ** [re.Pattern]

    The patterns handed to the program are compiled regular expressions and
    the program only ever calls [Pattern.match] on them.  The model keeps the
    regular operators; [match] asks whether zero or more characters at the
    START of the subject are in the pattern's language, [search] (which the
    program never calls) asks the same of any position. *)

Module Re.

Inductive Pattern : Type :=
| Never                               (* matches nothing *)
| Eps                                 (* the empty pattern *)
| Cls (f : ascii -> bool)             (* one character of a class *)
| Cat (p q : Pattern)
| Alt (p q : Pattern)
| Star (p : Pattern).

Definition Chr (c : ascii) : Pattern := Cls (Ascii.eqb c).
(** [.] : anything but a newline *)
Definition Dot : Pattern := Cls (fun c => negb (Ascii.eqb c "010"%char)).
(** [\d] *)
Definition Digit : Pattern :=
  Cls (fun c => (48 <=? nat_of_ascii c)%nat && (nat_of_ascii c <=? 57)%nat).
Definition Plus (p : Pattern) : Pattern := Cat p (Star p).

(** A literal string. *)
Fixpoint Lit (s : string) : Pattern :=
  match s with
  | EmptyString => Eps
  | String c s' => Cat (Chr c) (Lit s')
  end.

(** The language of a pattern. *)
Inductive Lang : Pattern -> string -> Prop :=
| L_eps : Lang Eps ""
| L_cls f c : f c = true -> Lang (Cls f) (String c "")
| L_cat p q s t : Lang p s -> Lang q t -> Lang (Cat p q) (s +:+ t)
| L_alt_l p q s : Lang p s -> Lang (Alt p q) s
| L_alt_r p q s : Lang q s -> Lang (Alt p q) s
| L_star_nil p : Lang (Star p) ""
| L_star_app p s t : Lang p s -> Lang (Star p) t -> Lang (Star p) (s +:+ t).

Fixpoint nullable (p : Pattern) : bool :=
  match p with
  | Never => false
  | Eps => true
  | Cls _ => false
  | Cat p q => nullable p && nullable q
  | Alt p q => nullable p || nullable q
  | Star _ => true
  end.

(** Brzozowski derivative: what is left of [p] after reading [c]. *)
Fixpoint deriv (c : ascii) (p : Pattern) : Pattern :=
  match p with
  | Never => Never
  | Eps => Never
  | Cls f => if f c then Eps else Never
  | Cat p q => if nullable p
               then Alt (Cat (deriv c p) q) (deriv c q)
               else Cat (deriv c p) q
  | Alt p q => Alt (deriv c p) (deriv c q)
  | Star p => Cat (deriv c p) (Star p)
  end.

(** [p.match(s)] as a truth value: anchored at position 0, free at the
    end. *)
Fixpoint Pattern_match (p : Pattern) (s : string) : bool :=
  nullable p ||
  match s with
  | EmptyString => false
  | String c s' => Pattern_match (deriv c p) s'
  end.

(** [p.search(s)] as a truth value: a match starting anywhere. *)
Fixpoint Pattern_search (p : Pattern) (s : string) : bool :=
  Pattern_match p s ||
  match s with
  | EmptyString => false
  | String _ s' => Pattern_search p s'
  end.

End Re.

(** ** [src/redist/release.py] *)

Module release.

(** The record shapes as consumed: an asset record has a [name], a release
    record a [tag_name] and its [assets]; whatever else the hosting API
    sends along stays in [*_other]. *)
Record AssetData : Type := mkAssetData {
  name_ : string;
  asset_other : list (string * string)
}.

Record ReleaseData : Type := mkReleaseData {
  tag_name : string;
  assets_ : list AssetData;
  release_other : list (string * string)
}.

(** [__slots__ = ("__data", "__tag")] *)
Record Release : Type := mkRelease {
  R_data : ReleaseData;
  R_tag : string
}.

(** [__slots__ = ("__data", "__name", "__release")] *)
Record Asset : Type := mkAsset {
  A_data : AssetData;
  A_name : string;
  A_release : Release
}.

(** [Release.__init__] *)
Definition Release_init (data : ReleaseData) : Release :=
  {| R_data := data; R_tag := tag_name data |}.

(** [Asset.__init__] *)
Definition Asset_init (data : AssetData) (release : Release) : Asset :=
  {| A_data := data; A_name := name_ data; A_release := release |}.

(** [Release.__eq__], on two Release values *)
Definition Release_eq (self other : Release) : bool :=
  String.eqb (R_tag self) (R_tag other).

(** [Asset.__eq__], on two Asset values *)
Definition Asset_eq (self other : Asset) : bool :=
  String.eqb (A_name self) (A_name other)
  && Release_eq (A_release self) (A_release other).

(** [Release.__str__] *)
Definition Release_str (self : Release) : string := R_tag self.

(** [Asset.__str__] *)
Definition Asset_str (self : Asset) : string := A_name self.

(** [Release.tag] *)
Definition tag (self : Release) : string := R_tag self.

(** [Asset.name] *)
Definition name (self : Asset) : string := A_name self.

(** [Release.version] *)
Definition version (self : Release) : string :=
  PyStr.removeprefix "v" (R_tag self).

(** [Release.assets]: the generator over [self.__data["assets"]], run to
    its end. *)
Definition assets (self : Release) (asset_filter : option Re.Pattern)
  : list Asset :=
  let assets := map (fun it => Asset_init it self) (assets_ (R_data self)) in
  match asset_filter with
  | None => assets
  | Some asset_filter =>
      List.filter (fun it => Re.Pattern_match asset_filter (name it)) assets
  end.

End release.

(** ** [src/redist/http.py] *)

Module http.

(** [ACCEPT_JSON] *)
Definition ACCEPT_JSON : gmap string string :=
  {[ "Accept" := "application/json" ]}.

(** The headers a fresh [requests.Session()] starts with; there is no
    [Authorization] among them. *)
Definition Session_headers : gmap string string :=
  <[ "User-Agent" := "python-requests" ]>
  (<[ "Accept-Encoding" := "gzip, deflate" ]>
  (<[ "Accept" := "*/*" ]>
  {[ "Connection" := "keep-alive" ]})).

(** [environ.get(key, default)] *)
Definition environ_get (environ : gmap string string)
  (key default_ : string) : string :=
  match environ !! key with
  | Some v => v
  | None => default_
  end.

(** [token = environ.get("GITHUB_TOKEN", environ.get("GH_TOKEN", ""))] *)
Definition token (environ : gmap string string) : string :=
  environ_get environ "GITHUB_TOKEN" (environ_get environ "GH_TOKEN" "").

(** [SESSION.headers] once the module is imported. *)
Definition SESSION_headers (environ : gmap string string)
  : gmap string string :=
  let token := token environ in
  if PyStr.startswith "ghp_" token
  then <[ "Authorization" := "Bearer " +:+ token ]> Session_headers
  else Session_headers.

(** The headers of [SESSION.get(url, headers=h)]: the call's own headers
    win over the session's. *)
Definition request_headers (session call : gmap string string)
  : gmap string string := call ∪ session.

End http.

(** ** Generators over the network

    A generator that issues HTTP requests is modelled by the finite trace of
    what it does when it is run to its end: it sends a GET, yields a value,
    returns, raises, or waits for a response that never comes ([Pending],
    when the scripted network has no more responses). *)

Inductive Gen (A : Type) : Type :=
| Stop
| Throw (e : Exception)
| Pending
| Yield (a : A) (k : Gen A)
| Get (url : string) (headers : gmap string string) (k : Gen A).
Arguments Stop {A}.
Arguments Throw {A} e.
Arguments Pending {A}.
Arguments Yield {A} a k.
Arguments Get {A} url headers k.

(** How a run ends. *)
Inductive Outcome : Type :=
| Returned
| Failed (e : Exception)
| Blocked.

Fixpoint outcome {A} (g : Gen A) : Outcome :=
  match g with
  | Stop => Returned
  | Throw e => Failed e
  | Pending => Blocked
  | Yield _ k => outcome k
  | Get _ _ k => outcome k
  end.

(** The values a run yields, in order. *)
Fixpoint yielded {A} (g : Gen A) : list A :=
  match g with
  | Yield a k => a :: yielded k
  | Get _ _ k => yielded k
  | _ => []
  end.

(** The URLs a run requests, in order. *)
Fixpoint requested {A} (g : Gen A) : list string :=
  match g with
  | Yield _ k => requested k
  | Get url _ k => url :: requested k
  | _ => []
  end.

(** [yield from xs], then go on as [k]. *)
Fixpoint yield_from {A} (xs : list A) (k : Gen A) : Gen A :=
  match xs with
  | [] => k
  | x :: xs' => Yield x (yield_from xs' k)
  end.

(** The generator expression [(it for it in g if p(it))]. *)
Fixpoint genexpr_if {A} (p : A -> bool) (g : Gen A) : Gen A :=
  match g with
  | Stop => Stop
  | Throw e => Throw e
  | Pending => Pending
  | Yield it k => if p it then Yield it (genexpr_if p k) else genexpr_if p k
  | Get url h k => Get url h (genexpr_if p k)
  end.

(** The run [g], resumed as [g'] where [g] was left waiting. *)
Fixpoint resume {A} (g' g : Gen A) : Gen A :=
  match g with
  | Stop => Stop
  | Throw e => Throw e
  | Pending => g'
  | Yield a k => Yield a (resume g' k)
  | Get url h k => Get url h (resume g' k)
  end.

(** ** [src/redist/repo.py] *)

Module repo.
Import release.

(** What the program reads of a [requests.Response]; [links] maps a
    relation ([rel]) of the Link header to its URL. *)
Record Response : Type := mkResponse {
  status_code : Z;
  content : string;
  links : gmap string string
}.

(** [Response.raise_for_status()] of the [requests] library: client (4xx)
    and server (5xx) errors raise [HTTPError], every other status passes. *)
Definition raise_for_status (response : Response) : Exc unit :=
  if (400 <=? status_code response)%Z && (status_code response <? 600)%Z
  then Raised (HTTPError (status_code response))
  else Ok tt.

(** [__slots__ = ("__repo", "__base_url")] *)
Record GHRepo : Type := mkGHRepo {
  repo_ : string;
  base_url_ : string
}.

(** [GHRepo.__init__] *)
Definition GHRepo_init (repo : string) (base_url : option string) : GHRepo :=
  {| repo_ := repo;
     base_url_ := match base_url with
                  | None => "https://api.github.com"
                  | Some base_url => PyStr.rstrip "/" base_url
                  end |}.

Section Releases.

(** [JSON_PARSER.parse(content, recursive=True)] of [redist.json], a module
    that is not among the sources: it turns a response body into release
    records, or raises. *)
Variable JSON_PARSER_parse : string -> Exc (list ReleaseData).

(** [SESSION.headers] *)
Variable SESSION_headers : gmap string string.

(** The [while True] loop of [GHRepo.releases], against a scripted network:
    the n-th request is answered by the n-th response of [net]. *)
Fixpoint releases_loop (url : string) (net : list Response) : Gen Release :=
  Get url (http.request_headers SESSION_headers http.ACCEPT_JSON)
    match net with
    | [] => Pending
    | response :: net' =>
        match raise_for_status response with
        | Raised e => Throw e
        | Ok _ =>
            match JSON_PARSER_parse (content response) with
            | Raised e => Throw e
            | Ok records =>
                yield_from (map Release_init records)
                  match links response !! "next" with
                  | None => Stop
                  | Some next => releases_loop next net'
                  end
            end
        end
    end.

(** [GHRepo.releases] *)
Definition GHRepo_releases (self : GHRepo) (net : list Response)
  : Gen Release :=
  let url := base_url_ self +:+ "/repos/" +:+ repo_ self
             +:+ "/releases?per_page=100" in
  releases_loop url net.

(** [it in ignore] on a tuple of releases: some element is [it == e].  (The
    identity shortcut of [in] adds nothing: a release equals itself.) *)
Definition contains (it : Release) (ignore : list Release) : bool :=
  existsb (fun e => Release_eq it e) ignore.

(** The body of [GHSrcRepo.releases], with [super().releases()] as
    [super_releases].  [ignore] is the value bound to the name [ignore]:
    [None], or a tuple. *)
Definition GHSrcRepo_releases_body (super_releases : Gen Release)
  (tag_filter : option Re.Pattern) (ignore : option (list Release))
  : Gen Release :=
  match tag_filter with
  | None =>
      match ignore with
      | None => super_releases
      | Some ignore =>
          genexpr_if (fun it => negb (contains it ignore)) super_releases
      end
  | Some tag_filter =>
      match ignore with
      | None =>
          genexpr_if (fun it => Re.Pattern_match tag_filter (tag it))
            super_releases
      | Some ignore =>
          genexpr_if (fun it => negb (contains it ignore)
                                && Re.Pattern_match tag_filter (tag it))
            super_releases
      end
  end.

(** [GHSrcRepo.releases(tag_filter, *ignore)]: the call packs the variadic
    arguments into a tuple, so [ignore] is never [None] inside the body. *)
Definition GHSrcRepo_releases (self : GHRepo) (net : list Response)
  (tag_filter : option Re.Pattern) (ignore : list Release) : Gen Release :=
  GHSrcRepo_releases_body (GHRepo_releases self net) tag_filter (Some ignore).

End Releases.

(** The Differ in the words of the specification: ONE pass over the source
    with ONE predicate, (the tag filter is absent or matches the tag) and
    (the release equals none of the already-present ones). *)
Definition Differ_predicate (tag_filter : option Re.Pattern)
  (already_present : list Release) (it : Release) : bool :=
  match tag_filter with
  | None => true
  | Some tag_filter => Re.Pattern_match tag_filter (tag it)
  end
  && negb (existsb (fun e => String.eqb (tag it) (tag e)) already_present).

Definition Differ_spec (source : Gen Release)
  (tag_filter : option Re.Pattern) (already_present : list Release)
  : Gen Release :=
  genexpr_if (Differ_predicate tag_filter already_present) source.

End repo.

(** ** [redist.py] *)

Module redist.

Definition EXE_NAME : string := "protoc".

(** The [dict] literal of [map_platform]. *)
Definition PLATFORMS : gmap string string :=
  list_to_map [
    ("linux-aarch_64", "manylinux_2_17_aarch64.manylinux2014_aarch64");
    ("linux-ppcle_64", "manylinux_2_17_ppc64le.manylinux2014_ppc64le");
    ("linux-s390_64", "manylinux_2_17_s390x.manylinux2014_s390x");
    ("linux-x86_32", "manylinux_2_5_i686.manylinux1_i686");
    ("linux-x86_64", "manylinux_2_5_x86_64.manylinux1_x86_64");
    ("osx-aarch_64", "macosx_11_0_arm64");
    ("osx-x86_64", "macosx_10_4_x86_64");
    ("win32", "win32");
    ("win64", "win_amd64")
  ].

(** [map_platform] *)
Definition map_platform (s : string) : Exc (option string) :=
  let s := PyStr.removesuffix ".zip" s in
  let s := PyStr.removeprefix (EXE_NAME +:+ "-") s in
  let* i := PyStr.index "-" s in
  let s := PyStr.drop (i + 1) s in
  Ok (PLATFORMS !! s).

(** What is left of an asset name when [map_platform] looks for the dash
    (used to state facts about it). *)
Definition stem (s : string) : string :=
  PyStr.removeprefix (EXE_NAME +:+ "-") (PyStr.removesuffix ".zip" s).

(** *** The asset loop of [build] *)

Inductive Severity : Type := debug_ | notice_ | warning_ | error_.

(** An entry of [src.glob("*.zip")]: its name, whether it is a regular file,
    and the members (name, bytes) of the archive it holds. *)
Record DirEntry : Type := mkDirEntry {
  entry_name : string;
  is_file : bool;
  members : list (string * string)
}.

(** What the loop leaves behind: the calls to [log], oldest first, and the
    files under [dst]. *)
Record BuildState : Type := mkBuildState {
  logged : list (Severity * string);
  dst_files : gmap string string
}.

Definition log (s : Severity) (m : string) (st : BuildState) : BuildState :=
  {| logged := logged st ++ [(s, m)]; dst_files := dst_files st |}.

Definition write_file (name bytes : string) (st : BuildState) : BuildState :=
  {| logged := logged st; dst_files := <[ name := bytes ]> (dst_files st) |}.

(** [zip_file.read(it)]: the last member of that name. *)
Definition zip_read (it : string) (zip_file : list (string * string)) : string :=
  match (list_to_map (reverse zip_file) : gmap string string) !! it with
  | Some bytes => bytes
  | None => ""
  end.

(** [for it in zip_file.namelist(): if it in (...): ...; break] *)
Fixpoint extract_exe (namelist : list string)
  (zip_file : list (string * string)) (exe_platform : string)
  (st : BuildState) : BuildState :=
  match namelist with
  | [] => st
  | it :: namelist' =>
      if String.eqb it "bin/protoc" || String.eqb it "bin/protoc.exe"
      then write_file exe_platform (zip_read it zip_file) st
      else extract_exe namelist' zip_file exe_platform st
  end.

Section Build.

(** [CI or VERBOSE] *)
Variable verbose : bool.
(** [rich.markup.escape] *)
Variable markup_escape : string -> string.
(** [src.relative_to(ROOT_DIR)], as text *)
Variable src_rel : string.

(** [debug] *)
Definition debug (m : string) (st : BuildState) : BuildState :=
  if verbose then log debug_ m st else st.

(** [warning] *)
Definition warning (m : string) (st : BuildState) : BuildState :=
  log warning_ m st.

(** [for exe_src in src.glob("*.zip"): ...], the inner loop of [build]. *)
Fixpoint build_assets (entries : list DirEntry) (st : BuildState)
  : Exc BuildState :=
  match entries with
  | [] => Ok st
  | exe_src :: entries' =>
      if negb (is_file exe_src)
      then build_assets entries'
             (debug ("ignoring non-file: " +:+ src_rel +:+ "/"
                     +:+ entry_name exe_src) st)
      else
        let* exe_platform := map_platform (entry_name exe_src) in
        match exe_platform with
        | None =>
            build_assets entries'
              (warning ("Unknown platform [bold]"
                        +:+ markup_escape (entry_name exe_src)
                        +:+ "[/bold]") st)
        | Some exe_platform =>
            let exe_platform := "py2.py3-none-" +:+ exe_platform in
            let zip_file := members exe_src in
            build_assets entries'
              (extract_exe (map fst zip_file) zip_file exe_platform st)
        end
  end.

End Build.

(** *** [ReproducibleWheelFile] and the entry loop of [assemble] *)

(** The fields of a [zipfile.ZipInfo] that the program sets or that decide
    what is written. *)
Record ZipInfo : Type := mkZipInfo {
  filename : string;
  date_time : Z * Z * Z * Z * Z * Z;
  create_system : Z;
  compress_type : Z;
  external_attr : Z;
  file_size : Z
}.

(** The date every entry is written under. *)
Definition EPOCH : Z * Z * Z * Z * Z * Z := (1980, 1, 1, 0, 0, 0)%Z.

Definition ZIP_STORED : Z := 0.
Definition ZIP_DEFLATED : Z := 8.

(** [ZipInfo(filename)]: the epoch of the format as date, and a
    [create_system] that depends on the platform the interpreter runs on. *)
Definition ZipInfo_init (win32 : bool) (filename : string) : ZipInfo :=
  {| filename := filename;
     date_time := (1980, 1, 1, 0, 0, 0)%Z;
     create_system := if win32 then 0%Z else 3%Z;
     compress_type := ZIP_STORED;
     external_attr := 0%Z;
     file_size := 0%Z |}.

Definition set_date_time (v : Z * Z * Z * Z * Z * Z) (zi : ZipInfo) : ZipInfo :=
  {| filename := filename zi; date_time := v;
     create_system := create_system zi; compress_type := compress_type zi;
     external_attr := external_attr zi; file_size := file_size zi |}.

Definition set_create_system (v : Z) (zi : ZipInfo) : ZipInfo :=
  {| filename := filename zi; date_time := date_time zi;
     create_system := v; compress_type := compress_type zi;
     external_attr := external_attr zi; file_size := file_size zi |}.

Definition set_compress_type (v : Z) (zi : ZipInfo) : ZipInfo :=
  {| filename := filename zi; date_time := date_time zi;
     create_system := create_system zi; compress_type := v;
     external_attr := external_attr zi; file_size := file_size zi |}.

Definition set_external_attr (v : Z) (zi : ZipInfo) : ZipInfo :=
  {| filename := filename zi; date_time := date_time zi;
     create_system := create_system zi; compress_type := compress_type zi;
     external_attr := v; file_size := file_size zi |}.

Definition set_file_size (v : Z) (zi : ZipInfo) : ZipInfo :=
  {| filename := filename zi; date_time := date_time zi;
     create_system := create_system zi; compress_type := compress_type zi;
     external_attr := external_attr zi; file_size := v |}.

(** An archive open for writing: its entries, oldest first. *)
Record WheelFile : Type := mkWheelFile {
  entries : list (ZipInfo * string)
}.

(** [len(v)] *)
Definition len (v : string) : Z := Z.of_nat (String.length v).

(** [WheelFile.writestr] with a [ZipInfo]: the entry is written under the
    header [zinfo], whose size becomes that of the data.  The [ZipInfo] is
    mutated in place, so it is handed back next to the archive. *)
Definition WheelFile_writestr (self : WheelFile) (zinfo : ZipInfo)
  (data : string) : ZipInfo * WheelFile :=
  let zinfo := set_file_size (len data) zinfo in
  (zinfo, {| entries := entries self ++ [(zinfo, data)] |}).

(** [ReproducibleWheelFile.writestr] *)
Definition ReproducibleWheelFile_writestr (self : WheelFile) (zi : ZipInfo)
  (data : string) : ZipInfo * WheelFile :=
  let zi := set_create_system 3 zi in
  let zi := set_date_time (1980, 1, 1, 0, 0, 0)%Z zi in
  WheelFile_writestr self zi data.

(** The body of [with ReproducibleWheelFile(whl_file, "w") as it:] in
    [assemble]: four entries, each under a fresh [ZipInfo]. *)
Definition assemble_entries (win32 : bool) (whl_name exe_name : string)
  (exe_bytes license_ metadata wheel : string) : WheelFile :=
  let dist_info := whl_name +:+ ".dist-info" in
  fold_left
    (fun it '(_k, v, p) =>
       let k := ZipInfo_init win32 _k in
       let k := set_compress_type ZIP_DEFLATED k in
       let k := set_external_attr (Z.shiftl (p + 32768) 16) k in
       let k := set_file_size (len v) k in
       snd (ReproducibleWheelFile_writestr it k v))
    [ (whl_name +:+ ".data/scripts/" +:+ exe_name, exe_bytes, 493%Z);
      (dist_info +:+ "/LICENSE", license_, 420%Z);
      (dist_info +:+ "/METADATA", metadata, 420%Z);
      (dist_info +:+ "/WHEEL", wheel, 420%Z) ]
    {| entries := [] |}.

End redist.

(** ** More of the program

    What follows embeds the code around the places above: hashing in
    [release.py], the log functions of [console.py] and [redist.py], the
    command of [cli.py], and the directory loops of [build], [assemble] and
    [publish] in [redist.py]. *)

(** *** Runs, read as a whole *)

(** Everything a run does, in order: a request (left) or a value (right). *)
Fixpoint events {A} (g : Gen A) : list (string + A) :=
  match g with
  | Yield a k => inr a :: events k
  | Get url _ k => inl url :: events k
  | _ => []
  end.

(** The headers of the requests of a run, in order. *)
Fixpoint sent {A} (g : Gen A) : list (gmap string string) :=
  match g with
  | Yield _ k => sent k
  | Get _ h k => h :: sent k
  | _ => []
  end.

(** [f(x, *g)]: the call unpacks the generator [g] to its end before [f] is
    entered; [f] never runs when [g] raises. *)
Fixpoint unpack {A B} (g : Gen A) (seen : list A) (f : list A -> Gen B)
  : Gen B :=
  match g with
  | Stop => f seen
  | Throw e => Throw e
  | Pending => Pending
  | Yield a k => unpack k (seen ++ [a]) f
  | Get url h k => Get url h (unpack k seen f)
  end.

(** [for it in g: body(it)], where the body does [body it], one after the
    other. *)
Fixpoint for_each {A B} (g : Gen A) (body : A -> list B) : Gen B :=
  match g with
  | Stop => Stop
  | Throw e => Throw e
  | Pending => Pending
  | Yield it k => yield_from (body it) (for_each k body)
  | Get url h k => Get url h (for_each k body)
  end.

(** *** [release.py]: hashing *)

Module release_hash.
Import release.

Section Hash.
(** The builtin [hash] on [str]. *)
Variable hash : string -> Z.

(** [Release.__hash__] *)
Definition Release_hash (self : Release) : Z := hash (R_tag self).

(** [Asset.__hash__] *)
Definition Asset_hash (self : Asset) : Z := hash (A_name self).

End Hash.

End release_hash.

(** *** [console.py], [redist.py]: what [log] prints *)

Module console.
Import redist.

(** [s.replace(c, by)] for a one-character [c]: every occurrence. *)
Fixpoint replace (c : ascii) (by_ : string) (s : string) : string :=
  match s with
  | EmptyString => EmptyString
  | String a s' =>
      if Ascii.eqb a c then by_ +:+ replace c by_ s'
      else String a (replace c by_ s')
  end.

(** [m.replace("%", "%25").replace("\n", "%0A").replace("\r", "%0D")] *)
Definition escape (m : string) : string :=
  replace "013" "%0D" (replace "010" "%0A" (replace "%" "%25" m)).

(** The value of a [Severity] / [LogLevel] literal. *)
Definition severity_name (s : Severity) : string :=
  match s with
  | debug_ => "debug"
  | notice_ => "notice"
  | warning_ => "warning"
  | error_ => "error"
  end.

(** [log] under GitHub Actions: the text handed to [CONSOLE.print]. *)
Definition log_gha (s : Severity) (m : string) : string :=
  "::" +:+ severity_name s +:+ "::" +:+ escape m.

(** What one escaped character stands for: the escaping, read one character
    at a time. *)
Definition escape_char (a : ascii) : string :=
  if Ascii.eqb a "%" then "%25"
  else if Ascii.eqb a "010" then "%0A"
  else if Ascii.eqb a "013" then "%0D"
  else String a EmptyString.

Fixpoint escape_chars (m : string) : string :=
  match m with
  | EmptyString => EmptyString
  | String a m' => escape_char a +:+ escape_chars m'
  end.

End console.

(** *** [cli.py] *)

Module cli.
Import release repo redist.

Section Cli.
Variable JSON_PARSER_parse : string -> Exc (list ReleaseData).
Variable SESSION_headers : gmap string string.

(** The body of [cli]: [src.releases(tag_filter, *dst.releases())] unpacks
    the destination's listing first, then every new release is logged as a
    notice and each of its selected assets as a warning.  A yielded value of
    the run is one call of [log], with the text of its message. *)
Definition cli (src dst : GHRepo) (net_dst net_src : list Response)
  (tag_filter asset_filter : option Re.Pattern)
  : Gen (Severity * string) :=
  unpack (GHRepo_releases JSON_PARSER_parse SESSION_headers dst net_dst) []
    (fun ignore =>
       for_each
         (GHSrcRepo_releases JSON_PARSER_parse SESSION_headers src net_src
            tag_filter ignore)
         (fun release =>
            (notice_, Release_str release)
            :: map (fun asset => (warning_, Asset_str asset))
                 (assets release asset_filter))).

End Cli.

End cli.

(** *** [redist.py]: the directories of [build], [assemble] and [publish] *)

Module dirs.
Import redist.

(** What ends a command early, besides the errors of [Exception]. *)
Inductive Failure : Type :=
| Uncaught (e : Exception)
| FileNotFoundError (path : string)
| FileExistsError (path : string)
| NotADirectoryError (path : string)
| SystemExit (code : Z).

(** What is found at a path. *)
Inductive Path (C : Type) : Type :=
| Missing
| RegularFile
| Directory (contents : C).
Arguments Missing {C}.
Arguments RegularFile {C}.
Arguments Directory {C} contents.

(** [maybe_clean]: [rmtree] when asked to and there is something, then
    [mkdir(parents=True, exist_ok=True)].  It hands back what the directory
    holds afterwards; [empty] is a directory without entries. *)
Definition maybe_clean {C} (empty : C) (path : string) (clean : bool)
  (directory : Path C) : Failure + C :=
  match directory with
  | Missing => inr empty
  | RegularFile =>
      if clean then inl (NotADirectoryError path)
      else inl (FileExistsError path)
  | Directory contents => if clean then inr empty else inr contents
  end.

Section Build.
Variable verbose : bool.
Variable markup_escape : string -> string.

(** The inner loop of [build] once more, keeping what was logged and written
    when an error ends it. *)
Fixpoint build_assets_upto (src_rel : string) (entries : list DirEntry)
  (st : BuildState) : BuildState * option Exception :=
  match entries with
  | [] => (st, None)
  | exe_src :: entries' =>
      if negb (is_file exe_src)
      then build_assets_upto src_rel entries'
             (debug verbose ("ignoring non-file: " +:+ src_rel +:+ "/"
                             +:+ entry_name exe_src) st)
      else
        match map_platform (entry_name exe_src) with
        | Raised e => (st, Some e)
        | Ok None =>
            build_assets_upto src_rel entries'
              (warning ("Unknown platform [bold]"
                        +:+ markup_escape (entry_name exe_src)
                        +:+ "[/bold]") st)
        | Ok (Some exe_platform) =>
            let exe_platform := "py2.py3-none-" +:+ exe_platform in
            let zip_file := members exe_src in
            build_assets_upto src_rel entries'
              (extract_exe (map fst zip_file) zip_file exe_platform st)
        end
  end.

(** An entry of [EXE_CACHE_DIR.glob(tag_glob)]: its name, whether it is a
    directory, and in a directory the [LICENSE] file (when there is one) and
    the entries of [src.glob("*.zip")]. *)
Record CacheEntry : Type := mkCacheEntry {
  cache_name : string;
  is_dir : bool;
  LICENSE : option string;
  zips : list DirEntry
}.

(** What [build] has done when it stops; [build_dir] is [EXE_BUILD_DIR],
    the files of each tag directory. *)
Record Built : Type := mkBuilt {
  build_log : list (Severity * string);
  build_dir : gmap string (gmap string string);
  failure : option Failure
}.

Definition EXE_CACHE_REL : string := ".cache/protoc".
Definition EXE_BUILD_REL : string := "build/protoc".

(** [for src in EXE_CACHE_DIR.glob(tag_glob): ...], the outer loop of
    [build]. *)
Fixpoint build_tags (tags : list CacheEntry)
  (log_ : list (Severity * string))
  (dir : gmap string (gmap string string)) : Built :=
  match tags with
  | [] => {| build_log := log_; build_dir := dir; failure := None |}
  | src :: tags' =>
      let src_rel := EXE_CACHE_REL +:+ "/" +:+ cache_name src in
      if negb (is_dir src)
      then build_tags tags'
             (if verbose
              then log_ ++ [(debug_, "ignoring non-directory: " +:+ src_rel)]
              else log_) dir
      else
        match dir !! cache_name src with
        | Some _ =>
            (* dst.mkdir raised FileExistsError *)
            build_tags tags'
              (if verbose
               then log_ ++ [(debug_, "ignoring existing: " +:+ EXE_BUILD_REL
                                      +:+ "/" +:+ cache_name src)]
               else log_) dir
        | None =>
            match LICENSE src with
            | None =>
                {| build_log := log_;
                   build_dir := <[ cache_name src := ∅ ]> dir;
                   failure := Some (FileNotFoundError
                                      (src_rel +:+ "/LICENSE")) |}
            | Some license_ =>
                let (st, raised) :=
                  build_assets_upto src_rel (zips src)
                    {| logged := log_;
                       dst_files := {[ "LICENSE" := license_ ]} |} in
                match raised with
                | Some e =>
                    {| build_log := logged st;
                       build_dir := <[ cache_name src := dst_files st ]> dir;
                       failure := Some (Uncaught e) |}
                | None =>
                    build_tags tags' (logged st)
                      (<[ cache_name src := dst_files st ]> dir)
                end
            end
        end
  end.

(** [build] *)
Definition build (clean : bool) (tags : list CacheEntry)
  (directory : Path (gmap string (gmap string string))) : Failure + Built :=
  match maybe_clean ∅ EXE_BUILD_REL clean directory with
  | inl f => inl f
  | inr dir => inr (build_tags tags [] dir)
  end.

End Build.

(** What [DIST_DIR] holds: wheels, other files, directories. *)
#[warnings="-register-all"]
Inductive Node : Type :=
| WheelN (w : WheelFile)
| FileN (bytes : string)
| DirN (children : gmap string Node).

(** [Path.is_file()] *)
Definition node_is_file (n : Node) : bool :=
  match n with
  | DirN _ => false
  | _ => true
  end.

(** An entry of [tag_dir.glob("py2.py3-none-*")]. *)
Record ExeFile : Type := mkExeFile {
  exe_file_name : string;
  exe_is_file : bool;
  exe_bytes : string
}.

Section Assemble.
Variable verbose : bool.
(** [sys.platform == "win32"], which decides the [create_system] of a fresh
    [ZipInfo]. *)
Variable win32 : bool.
(** [f"{WHL_NAME}-{version}"] and the path of the tag directory, as text *)
Variables whl_name tag_rel : string.
(** The bytes of [LICENSE], of [emsg(pypi_metadata, description)], and of
    [emsg(whl_metadata)] as it depends on the ["Tag"] set before it. *)
Variables license_ metadata : string.
Variable wheel_of : string -> string.

(** [f"{EXE_NAME}.exe" if pypi_platform.startswith("py2.py3-none-win") else
    EXE_NAME] *)
Definition exe_name_of (pypi_platform : string) : string :=
  if PyStr.startswith "py2.py3-none-win" pypi_platform
  then EXE_NAME +:+ ".exe" else EXE_NAME.

(** [for exe_file in tag_dir.glob("py2.py3-none-*"): ...], the inner loop of
    [assemble]. *)
Fixpoint assemble_files (exe_files : list ExeFile)
  (log_ : list (Severity * string)) (dist : gmap string Node)
  : list (Severity * string) * gmap string Node :=
  match exe_files with
  | [] => (log_, dist)
  | exe_file :: exe_files' =>
      if negb (exe_is_file exe_file)
      then assemble_files exe_files'
             (if verbose
              then log_ ++ [(debug_, "ignoring non-file: " +:+ tag_rel +:+ "/"
                                     +:+ exe_file_name exe_file)]
              else log_) dist
      else
        let pypi_platform := exe_file_name exe_file in
        let whl_file := whl_name +:+ "-" +:+ pypi_platform +:+ ".whl" in
        match dist !! whl_file with
        | Some _ =>
            assemble_files exe_files'
              (if verbose
               then log_ ++ [(debug_, "skipping existing wheel: dist/"
                                      +:+ whl_file)]
               else log_) dist
        | None =>
            assemble_files exe_files' log_
              (<[ whl_file :=
                    WheelN (assemble_entries win32 whl_name
                              (exe_name_of pypi_platform)
                              (exe_bytes exe_file) license_ metadata
                              (wheel_of pypi_platform)) ]> dist)
        end
  end.

End Assemble.

(** [has_uncommitted_changes], on what [run("git", "status", ...)]
    returned. *)
Definition has_uncommitted_changes (git_status : string) : bool :=
  negb (String.eqb git_status "").

(** How [publish] ends: it refuses (an error is logged and the process exits
    with [code]), or it has called [upload] with these lists of paths. *)
Inductive Published : Type :=
| Refused (message : string) (code : Z)
| Uploaded (calls : list (list string)).

(** What the asset loop of [build] may do to the log and the files: add to
    the log, keep every file, and write platform files only. *)
Definition grows (st st' : BuildState) : Prop :=
  (exists more, logged st' = (logged st ++ more)%list)
  /\ (forall k, is_Some (dst_files st !! k) -> is_Some (dst_files st' !! k))
  /\ (forall k,
        dst_files st' !! k <> dst_files st !! k ->
        exists key tag,
          PLATFORMS !! key = Some tag /\ k = "py2.py3-none-" +:+ tag).

Section Publish.
(** Whether a name matches the glob [version]. *)
Variable fnmatch : string -> string -> bool.

(** [[str(it) for it in version_dir.glob("*.whl") if it.is_file()]] *)
Definition wheels_in (dir_name : string) (children : gmap string Node)
  : list string :=
  omap (fun '(name, n) =>
          if PyStr.endswith ".whl" name && node_is_file n
          then Some (dir_name +:+ "/" +:+ name) else None)
       (map_to_list children).

(** [publish] *)
Definition publish (force : bool) (git_status : string) (version : string)
  (dist : gmap string Node) : Published :=
  if negb force && has_uncommitted_changes git_status
  then Refused ("Refusing publication, you have uncommitted changes, "
                +:+ "use [bold]--force[/bold] to ignore this check.") 1
  else Uploaded
         (omap (fun '(name, n) =>
                  if fnmatch version name
                  then match n with
                       | DirN children => Some (wheels_in name children)
                       | _ => None
                       end
                  else None)
               (map_to_list dist)).

End Publish.

End dirs.

(** *** Pages of a listing *)

Module pages.
Import release repo.

(** The releases a response carries, when its body parses. *)
Definition page_releases (parse : string -> Exc (list ReleaseData))
  (response : Response) : list Release :=
  match parse (content response) with
  | Ok records => map Release_init records
  | Raised _ => []
  end.

(** A response the loop accepts: no error status, and a body that parses. *)
Definition page_ok (parse : string -> Exc (list ReleaseData))
  (response : Response) : Prop :=
  raise_for_status response = Ok tt
  /\ exists records, parse (content response) = Ok records.

End pages.


(** ** Sample data, for the examples below *)

Module samples.
Import release repo.

(** [v3\.\d+\.\d+] *)
Definition v3_tags : Re.Pattern :=
  Re.Cat (Re.Lit "v3.")
    (Re.Cat (Re.Plus Re.Digit) (Re.Cat (Re.Chr ".") (Re.Plus Re.Digit))).

(** [protoc-\d.*?-linux.*?\.zip]; a lazy star has the language of a greedy
    one. *)
Definition linux_zip : Re.Pattern :=
  Re.Cat (Re.Lit "protoc-")
    (Re.Cat Re.Digit
      (Re.Cat (Re.Star Re.Dot)
        (Re.Cat (Re.Lit "-linux")
          (Re.Cat (Re.Star Re.Dot) (Re.Lit ".zip"))))).

Definition linux_asset : AssetData :=
  {| name_ := "protoc-1-linux-x86_64.zip";
     asset_other := [("size", "1024")] |}.

Definition win_asset : AssetData :=
  {| name_ := "protoc-1-win64.zip"; asset_other := [("size", "2048")] |}.

Definition release_data (tag : string) (assets : list AssetData)
  : ReleaseData :=
  {| tag_name := tag; assets_ := assets; release_other := [] |}.

Definition v1 : Release := Release_init (release_data "v1" [linux_asset; win_asset]).
Definition v2 : Release := Release_init (release_data "v2" [linux_asset]).

(** The destination's copy of [v1]: same tag, other asset data. *)
Definition v1_at_dst : Release := Release_init (release_data "v1" []).

(** A parser for the two bodies the scripted responses below carry. *)
Definition parse (content : string) : Exc (list ReleaseData) :=
  if String.eqb content "[]" then Ok []
  else if String.eqb content "[v2, v1]"
       then Ok [release_data "v2" [linux_asset];
                release_data "v1" [linux_asset; win_asset]]
       else Raised (ValueError "malformed JSON").

(** A first page that announces a second one. *)
Definition page1 : Response :=
  {| status_code := 200; content := "[v2, v1]";
     links := {[ "next" := "https://api.github.com/repositories/1/releases?per_page=100&page=2" ]} |}.

(** A last page. *)
Definition last_page : Response :=
  {| status_code := 200; content := "[]"; links := ∅ |}.

Definition server_error : Response :=
  {| status_code := 503; content := "Service Unavailable"; links := ∅ |}.

(** A response that is neither a success (2xx) nor an error (4xx, 5xx), with
    a well-formed body. *)
Definition multiple_choices : Response :=
  {| status_code := 300; content := "[]"; links := ∅ |}.

Definition upstream : GHRepo := GHRepo_init "protocolbuffers/protobuf" None.

(** An environment in which the first variable is set, but empty. *)
Definition empty_first : gmap string string :=
  <[ "GITHUB_TOKEN" := "" ]> {[ "GH_TOKEN" := "ghp_0123456789" ]}.

Definition only_second : gmap string string :=
  {[ "GH_TOKEN" := "ghp_0123456789" ]}.

End samples.

(** *** More sample data *)

Module samples_more.
Import release repo redist.

(** A success status with a body that is no JSON. *)
Definition garbled : Response :=
  {| status_code := 200; content := "<html>"; links := ∅ |}.

(** The destination's copies of both sample releases. *)
Definition mirrored : list Release :=
  [ Release_init (samples.release_data "v1" []);
    Release_init (samples.release_data "v2" []) ].

End samples_more.

(** A cache directory of one tag, without its [LICENSE]. *)
Module samples_dirs.
Import redist dirs.

Definition unlicensed : CacheEntry :=
  {| cache_name := "v3.21.0"; is_dir := true; LICENSE := None;
     zips := [mkDirEntry "protoc-3.21.0-linux-x86_64.zip" true []] |}.

(** The executable [build] left for one platform. *)
Definition linux_exe : ExeFile :=
  {| exe_file_name := "py2.py3-none-manylinux_2_5_x86_64.manylinux1_x86_64";
     exe_is_file := true; exe_bytes := "ELF" |}.

End samples_dirs.

(** * Properties *)

(** ** Strings *)

Module PyStr_facts.
Import PyStr.

Lemma append_empty_r (s : string) : s +:+ "" = s.
Proof. induction s as [|a s IH]; simpl; [reflexivity | now rewrite IH]. Qed.

Lemma append_eq_empty (s t : string) : s +:+ t = "" -> s = "" /\ t = "".
Proof. destruct s; simpl; [auto | discriminate]. Qed.

Lemma startswith_append (p s : string) : startswith p (p +:+ s) = true.
Proof.
  induction p as [|a p IH]; simpl; [reflexivity|].
  now rewrite Ascii.eqb_refl, IH.
Qed.

Lemma startswith_inv (p s : string) :
  startswith p s = true -> exists t, s = p +:+ t.
Proof.
  revert s; induction p as [|a p IH]; intros s H; simpl in *.
  - now exists s.
  - destruct s as [|b s]; [discriminate|].
    apply andb_true_iff in H as [Hab Hps].
    apply Ascii.eqb_eq in Hab as ->.
    destruct (IH _ Hps) as [t ->]. now exists t.
Qed.

Lemma drop_append (p s : string) : drop (String.length p) (p +:+ s) = s.
Proof. induction p as [|a p IH]; simpl; [now destruct s | exact IH]. Qed.

(** [removeprefix] in the words of its documentation. *)
Lemma removeprefix_spec (p s : string) :
  (forall t, s = p +:+ t -> removeprefix p s = t)
  /\ ((forall t, s <> p +:+ t) -> removeprefix p s = s).
Proof.
  unfold removeprefix; split.
  - intros t ->. now rewrite startswith_append, drop_append.
  - intros H. destruct (startswith p s) eqn:E; [|reflexivity].
    destruct (startswith_inv _ _ E) as [t ->]. now destruct (H t).
Qed.

End PyStr_facts.

(** ** Patterns: [match] is anchored *)

Module Re_facts.
Import Re PyStr_facts.

Lemma Lang_Never (s : string) : ~ Lang Never s.
Proof. intros H; inversion H. Qed.

Lemma nullable_Lang (p : Pattern) : nullable p = true <-> Lang p "".
Proof.
  split.
  - induction p as [| |f|p IHp q IHq|p IHp q IHq|p IHp]; simpl; intros H;
      try discriminate.
    + constructor.
    + apply andb_true_iff in H as [Hp Hq].
      change "" with ("" +:+ ""). constructor; auto.
    + apply orb_true_iff in H as [Hp|Hq];
        [apply L_alt_l | apply L_alt_r]; auto.
    + constructor.
  - intros H. remember "" as e eqn:He.
    induction H as [|f c Hc|p q s t Hs IHs Ht IHt|p q s Hs IHs|p q s Hs IHs
                   |p|p s t Hs IHs Ht IHt]; simpl; try reflexivity.
    + discriminate.
    + apply append_eq_empty in He as [-> ->]. now rewrite IHs, IHt.
    + now rewrite IHs.
    + rewrite IHs by assumption. now rewrite orb_true_r.
Qed.

Lemma Lang_deriv_intro (p : Pattern) (w : string) :
  Lang p w -> forall c s, w = String c s -> Lang (deriv c p) s.
Proof.
  induction 1 as [|f c0 Hc|p q s1 t Hs IHs Ht IHt|p q s1 Hs IHs|p q s1 Hs IHs
                 |p|p s1 t Hs IHs Ht IHt]; intros c s E; simpl.
  - discriminate.
  - injection E as -> <-. rewrite Hc. constructor.
  - destruct s1 as [|c1 s1]; simpl in E.
    + subst t. apply nullable_Lang in Hs. rewrite Hs.
      apply L_alt_r. now apply IHt.
    + injection E as -> <-.
      destruct (nullable p); [apply L_alt_l|]; constructor; auto.
  - apply L_alt_l; auto.
  - apply L_alt_r; auto.
  - discriminate.
  - destruct s1 as [|c1 s1]; simpl in E.
    + subst t. apply (IHt c s eq_refl).
    + injection E as -> <-. constructor; auto.
Qed.

Lemma Lang_deriv_elim (p : Pattern) :
  forall c s, Lang (deriv c p) s -> Lang p (String c s).
Proof.
  induction p as [| |f|p IHp q IHq|p IHp q IHq|p IHp]; intros c s H;
    simpl in H.
  - inversion H.
  - inversion H.
  - destruct (f c) eqn:Hc; inversion H; subst. now constructor.
  - assert (Hcat : forall w, Lang (Cat (deriv c p) q) w ->
                             Lang (Cat p q) (String c w)).
    { intros w Hw. inversion Hw as [| |p' q' s1 t Hs Ht| | | |]; subst.
      change (String c (s1 +:+ t)) with (String c s1 +:+ t).
      constructor; auto. }
    destruct (nullable p) eqn:Hn; [|now apply Hcat].
    inversion H as [| | |p' q' s1 Hs|p' q' s1 Hs| |]; subst.
    + now apply Hcat.
    + change (String c s) with ("" +:+ String c s).
      constructor; [now apply nullable_Lang | auto].
  - inversion H; subst; [apply L_alt_l | apply L_alt_r]; auto.
  - inversion H as [| |p' q' s1 t Hs Ht| | | |]; subst.
    change (String c (s1 +:+ t)) with (String c s1 +:+ t).
    constructor; auto.
Qed.

(** [Pattern.match] succeeds exactly when the subject STARTS with a word of
    the pattern's language. *)
Lemma Pattern_match_anchored (p : Pattern) (s : string) :
  Pattern_match p s = true <->
  exists pre suf, s = pre +:+ suf /\ Lang p pre.
Proof.
  revert p; induction s as [|c s IH]; intros p; simpl.
  - rewrite orb_false_r, nullable_Lang. split.
    + intros H. now exists "", "".
    + intros (pre & suf & E & H). symmetry in E.
      apply append_eq_empty in E as [-> _]. exact H.
  - rewrite orb_true_iff, nullable_Lang, IH. split.
    + intros [H|(pre & suf & -> & H)].
      * now exists "", (String c s).
      * exists (String c pre), suf. split; [reflexivity|].
        now apply Lang_deriv_elim.
    + intros (pre & suf & E & H). destruct pre as [|c' pre]; [now left|].
      right. simpl in E. injection E as -> ->.
      exists pre, suf. split; [reflexivity|].
      now apply (Lang_deriv_intro _ _ H).
Qed.

(** A match is a search hit, not the other way round. *)
Lemma Pattern_match_search (p : Pattern) (s : string) :
  Pattern_match p s = true -> Pattern_search p s = true.
Proof. destruct s; simpl; intros ->; reflexivity. Qed.

(** The specification's tag pattern: anchored at the start, so a tag that
    merely contains a match is not matched. *)
Example v3_tags_example :
  Pattern_match samples.v3_tags "v3.21.0" = true
  /\ Pattern_match samples.v3_tags "v2.5.0" = false
  /\ Pattern_match samples.v3_tags "release-v3.21.0" = false
  /\ Pattern_search samples.v3_tags "release-v3.21.0" = true.
Proof. repeat split; vm_compute; reflexivity. Qed.

End Re_facts.

(** ** [release.py]: equality, text, version, assets *)

Module release_facts.
Import release PyStr_facts.

Lemma Release_eq_refl (r : Release) : Release_eq r r = true.
Proof. apply String.eqb_refl. Qed.

Lemma Release_eq_sym (r1 r2 : Release) : Release_eq r1 r2 = Release_eq r2 r1.
Proof. apply String.eqb_sym. Qed.

(** C6: two Release values are equal exactly when their tags are equal;
    nothing but the tag is looked at, so replacing the data either release
    was built from (its assets included) never changes the answer. *)
Theorem Release_eq_by_tag_alone (r1 r2 : Release) :
  (Release_eq r1 r2 = true <-> tag r1 = tag r2)
  /\ (forall d1 d2 : ReleaseData,
        Release_eq (mkRelease d1 (R_tag r1)) (mkRelease d2 (R_tag r2))
        = Release_eq r1 r2)
  /\ (forall d1 d2 : ReleaseData,
        Release_eq (Release_init d1) (Release_init d2) = true
        <-> tag_name d1 = tag_name d2).
Proof.
  unfold Release_eq, tag; repeat split; simpl;
    try (now intros ?%String.eqb_eq); intros ->; apply String.eqb_refl.
Qed.

(** C7: for assets of the same name, one built from [r1] and one from [r2],
    the assets are equal exactly when the releases are; under releases of
    different tags they are distinct. *)
Theorem Asset_eq_same_name (d1 d2 : AssetData) (r1 r2 : Release) :
  name_ d1 = name_ d2 ->
  (Asset_eq (Asset_init d1 r1) (Asset_init d2 r2) = true
   <-> Release_eq r1 r2 = true)
  /\ (tag r1 <> tag r2 ->
      Asset_eq (Asset_init d1 r1) (Asset_init d2 r2) = false).
Proof.
  intros Hname. unfold Asset_eq; simpl. rewrite Hname, String.eqb_refl; simpl.
  split; [reflexivity|].
  intros Hne. unfold Release_eq. now apply String.eqb_neq.
Qed.

Lemma Asset_eq_same_name_witness :
  name_ samples.linux_asset
  = name_ (mkAssetData "protoc-1-linux-x86_64.zip" [])
  /\ (Asset_eq (Asset_init samples.linux_asset samples.v1)
               (Asset_init (mkAssetData "protoc-1-linux-x86_64.zip" [])
                           samples.v2) = true
      <-> Release_eq samples.v1 samples.v2 = true).
Proof.
  split; [reflexivity|].
  apply (Asset_eq_same_name samples.linux_asset
           (mkAssetData "protoc-1-linux-x86_64.zip" [])
           samples.v1 samples.v2).
  reflexivity.
Defined.

(** C8: the text of a release is its tag, and its version is the tag
    without ONE leading "v": taken off when the tag starts with it, and only
    once; a tag that does not start with "v" is its own version. *)
Theorem Release_str_and_version (r : Release) :
  Release_str r = tag r
  /\ ((exists t, tag r = "v" +:+ t /\ version r = t)
      \/ (PyStr.startswith "v" (tag r) = false /\ version r = tag r))
  /\ (forall d,
        version (mkRelease d "v1.2") = "1.2"
        /\ version (mkRelease d "1.2") = "1.2"
        /\ version (mkRelease d "vv1.2") = "v1.2").
Proof.
  split; [reflexivity|]. split; [|intros d; repeat split].
  unfold version, tag, PyStr.removeprefix.
  destruct (PyStr.startswith "v" (R_tag r)) eqn:E.
  - left. destruct (startswith_inv _ _ E) as [t Ht].
    exists t. split; [exact Ht|]. rewrite Ht. apply (drop_append "v").
  - right. split; reflexivity.
Qed.

Lemma In_assets_all (r : Release) (a : Asset) :
  In a (assets r None) <->
  exists d, In d (assets_ (R_data r)) /\ a = Asset_init d r.
Proof.
  unfold assets. rewrite in_map_iff. split; intros (d & H1 & H2); exists d; auto.
Qed.

(** C5: without a filter, [Release.assets] gives every asset of the release
    in the order of the release's data; with a filter, exactly those whose
    name begins with a word of the pattern (a match anchored at the start),
    in the same order; and a release without assets gives nothing, whatever
    the filter. *)
Theorem Release_assets_selects (r : Release) :
  assets r None = map (fun d => Asset_init d r) (assets_ (R_data r))
  /\ map name (assets r None) = map name_ (assets_ (R_data r))
  /\ (forall p,
        assets r (Some p)
        = List.filter (fun a => Re.Pattern_match p (name a)) (assets r None))
  /\ (forall p a,
        In a (assets r (Some p)) <->
        In a (assets r None)
        /\ exists pre suf, name a = pre +:+ suf /\ Re.Lang p pre)
  /\ (forall t other tag_ asset_filter,
        assets (mkRelease (mkReleaseData t [] other) tag_) asset_filter = []).
Proof.
  split; [reflexivity|]. split.
  { unfold assets. rewrite map_map. reflexivity. }
  split; [reflexivity|]. split.
  - intros p a. unfold assets at 1. fold (assets r None).
    rewrite filter_In, Re_facts.Pattern_match_anchored. reflexivity.
  - intros t other tag_ [p|]; reflexivity.
Qed.

(** The selector on the specification's example release. *)
Example assets_example :
  map name (assets samples.v1 None)
  = ["protoc-1-linux-x86_64.zip"; "protoc-1-win64.zip"]
  /\ map name (assets samples.v1 (Some samples.linux_zip))
     = ["protoc-1-linux-x86_64.zip"]
  /\ map name (assets samples.v1 (Some (Re.Lit "linux"))) = []
  /\ map (fun a => Re.Pattern_search (Re.Lit "linux") (name a))
         (assets samples.v1 None) = [true; false].
Proof. repeat split; vm_compute; reflexivity. Qed.

End release_facts.

(** ** Generator expressions *)

Module Gen_facts.

Section Genexpr.
Context {A : Type}.
Implicit Types (g k : Gen A) (p q : A -> bool).

Lemma yielded_genexpr_if p g :
  yielded (genexpr_if p g) = List.filter p (yielded g).
Proof.
  induction g as [| | |a k IH|url h k IH]; simpl; auto.
  destruct (p a); simpl; now rewrite IH.
Qed.

Lemma outcome_genexpr_if p g : outcome (genexpr_if p g) = outcome g.
Proof.
  induction g as [| | |a k IH|url h k IH]; simpl; auto.
  now destruct (p a).
Qed.

Lemma requested_genexpr_if p g : requested (genexpr_if p g) = requested g.
Proof.
  induction g as [| | |a k IH|url h k IH]; simpl; auto.
  - now destruct (p a).
  - now rewrite IH.
Qed.

Lemma genexpr_if_ext p q g :
  (forall a, p a = q a) -> genexpr_if p g = genexpr_if q g.
Proof.
  intros E. induction g as [| | |a k IH|url h k IH]; simpl; auto.
  - now rewrite E, IH.
  - now rewrite IH.
Qed.

Lemma genexpr_if_true g : genexpr_if (fun _ => true) g = g.
Proof. induction g as [| | |a k IH|url h k IH]; simpl; now rewrite ?IH. Qed.

(** Two layered generator expressions are one, under the conjunction. *)
Lemma genexpr_if_layered p q g :
  genexpr_if p (genexpr_if q g) = genexpr_if (fun a => q a && p a) g.
Proof.
  induction g as [| | |a k IH|url h k IH]; simpl; auto.
  - destruct (q a); simpl; [destruct (p a)|]; now rewrite IH.
  - now rewrite IH.
Qed.

Lemma genexpr_if_resume p g' g :
  genexpr_if p (resume g' g) = resume (genexpr_if p g') (genexpr_if p g).
Proof.
  induction g as [| | |a k IH|url h k IH]; simpl; auto.
  - destruct (p a); simpl; now rewrite IH.
  - now rewrite IH.
Qed.

Lemma outcome_yield_from (xs : list A) k :
  outcome (yield_from xs k) = outcome k.
Proof. induction xs; simpl; auto. Qed.

Lemma yielded_yield_from (xs : list A) k :
  yielded (yield_from xs k) = (xs ++ yielded k)%list.
Proof. induction xs as [|x xs IH]; simpl; [|rewrite IH]; reflexivity. Qed.

Lemma requested_yield_from (xs : list A) k :
  requested (yield_from xs k) = requested k.
Proof. induction xs; simpl; auto. Qed.

Lemma resume_yield_from g' (xs : list A) k :
  resume g' (yield_from xs k) = yield_from xs (resume g' k).
Proof. induction xs as [|x xs IH]; simpl; [|rewrite IH]; reflexivity. Qed.

(** Resuming with a raise: the run now fails, after the same requests and
    the same values. *)
Lemma resume_Throw e g :
  outcome g = Blocked ->
  outcome (resume (Throw e) g) = Failed e
  /\ requested (resume (Throw e) g) = requested g
  /\ yielded (resume (Throw e) g) = yielded g.
Proof.
  induction g as [| | |a k IH|url h k IH]; simpl; intros H;
    try discriminate; auto.
  - destruct (IH H) as (? & ? & ->); auto.
  - destruct (IH H) as (? & -> & ?); auto.
Qed.

End Genexpr.

End Gen_facts.

(** ** [repo.py]: the Differ and the paginated listing *)

Module repo_facts.
Import release repo Gen_facts.

Lemma contains_false (it : Release) (ignore : list Release) :
  contains it ignore = false <->
  forall e, In e ignore -> tag e <> tag it.
Proof.
  unfold contains, Release_eq, tag. induction ignore as [|x l IH]; simpl.
  - split; [intros _ e [] | reflexivity].
  - rewrite orb_false_iff, IH, String.eqb_neq. split.
    + intros [Hx Hl] e [<-|He]; [congruence | now apply Hl].
    + intros H. split; [|intros e He; apply H; now right].
      intros E. apply (H x); [now left | now symmetry].
Qed.

(** The predicate of each branch of [GHSrcRepo.releases] is the combined
    one. *)
Lemma body_is_Differ_spec (source : Gen Release)
  (tag_filter : option Re.Pattern) (ignore : option (list Release)) :
  GHSrcRepo_releases_body source tag_filter ignore
  = Differ_spec source tag_filter
      match ignore with Some ignore => ignore | None => [] end.
Proof.
  unfold Differ_spec, Differ_predicate.
  destruct tag_filter as [p|], ignore as [l|]; simpl.
  - apply genexpr_if_ext. intros a. apply andb_comm.
  - apply genexpr_if_ext. intros a. now rewrite andb_true_r.
  - reflexivity.
  - now rewrite genexpr_if_true.
Qed.

(** C1: run over any source, the Differ yields a release exactly when (the
    tag filter is absent, or the release's tag begins with a word of the
    pattern) and the release has the tag of no already-present release.  The
    yielded releases are the source's, in the source's order, and a release
    is left out as soon as an already-present one carries its tag, whatever
    data that one was built from. *)
Theorem Differ_yields (source : Gen Release)
  (tag_filter : option Re.Pattern) (already_present : list Release) :
  let new := GHSrcRepo_releases_body source tag_filter (Some already_present) in
  yielded new
  = List.filter
      (fun it =>
         match tag_filter with
         | None => true
         | Some p => Re.Pattern_match p (tag it)
         end
         && negb (existsb (fun e => Release_eq it e) already_present))
      (yielded source)
  /\ (forall it,
        In it (yielded new) <->
        In it (yielded source)
        /\ (tag_filter = None
            \/ exists p pre suf,
                 tag_filter = Some p /\ tag it = pre +:+ suf /\ Re.Lang p pre)
        /\ (forall e, In e already_present -> tag e <> tag it))
  /\ (forall it d,
        In (mkRelease d (tag it)) already_present -> ~ In it (yielded new))
  /\ (forall parse h self net,
        yielded (GHSrcRepo_releases parse h self net tag_filter already_present)
        = List.filter (Differ_predicate tag_filter already_present)
            (yielded (GHRepo_releases parse h self net))).
Proof.
  intros new.
  assert (E : yielded new
              = List.filter (Differ_predicate tag_filter already_present)
                  (yielded source)).
  { unfold new. rewrite body_is_Differ_spec. apply yielded_genexpr_if. }
  assert (M : forall it,
             In it (yielded new) <->
             In it (yielded source)
             /\ (tag_filter = None
                 \/ exists p pre suf,
                      tag_filter = Some p /\ tag it = pre +:+ suf
                      /\ Re.Lang p pre)
             /\ (forall e, In e already_present -> tag e <> tag it)).
  { intros it. rewrite E, filter_In. unfold Differ_predicate.
    rewrite andb_true_iff, negb_true_iff.
    change (existsb _ already_present) with (contains it already_present).
    rewrite contains_false.
    destruct tag_filter as [p|].
    - rewrite Re_facts.Pattern_match_anchored. split.
      + intros (? & (pre & suf & ? & ?) & ?). repeat split; auto.
        right. now exists p, pre, suf.
      + intros (? & [|(q & pre & suf & [= <-] & ? & ?)] & ?); [discriminate|].
        repeat split; auto. now exists pre, suf.
    - split; intros (? & ? & ?); repeat split; auto. }
  split; [exact E|]. split; [exact M|]. split.
  - intros it d Hin Hy. apply M in Hy as (_ & _ & Hno).
    now apply (Hno _ Hin).
  - intros parse h self net. unfold GHSrcRepo_releases.
    rewrite body_is_Differ_spec. apply yielded_genexpr_if.
Qed.

(** The specification's scenario: source [v2, v1], destination [v1]. *)
Example Differ_scenario :
  yielded (GHSrcRepo_releases samples.parse ∅ samples.upstream
             [samples.page1; samples.last_page] None [samples.v1_at_dst])
  = [samples.v2]
  /\ map tag (yielded (GHSrcRepo_releases samples.parse ∅ samples.upstream
                         [samples.page1; samples.last_page]
                         (Some (Re.Lit "v1")) []))
     = ["v1"].
Proof. split; vm_compute; reflexivity. Qed.

(** C4: each of the four branches of [GHSrcRepo.releases] is the single pass
    with the one combined predicate, as a whole run (requests, yields and
    ending alike); so is the method as it is called; and so are the two
    filters layered one over the other, in either order. *)
Theorem Differ_branches_refine_spec (source : Gen Release)
  (tag_filter : option Re.Pattern) (ignore : list Release) :
  GHSrcRepo_releases_body source None None = Differ_spec source None []
  /\ (forall p,
        GHSrcRepo_releases_body source (Some p) None
        = Differ_spec source (Some p) [])
  /\ GHSrcRepo_releases_body source None (Some ignore)
     = Differ_spec source None ignore
  /\ (forall p,
        GHSrcRepo_releases_body source (Some p) (Some ignore)
        = Differ_spec source (Some p) ignore)
  /\ (forall parse h self net,
        GHSrcRepo_releases parse h self net tag_filter ignore
        = Differ_spec (GHRepo_releases parse h self net) tag_filter ignore)
  /\ GHSrcRepo_releases_body
       (GHSrcRepo_releases_body source tag_filter None) None (Some ignore)
     = Differ_spec source tag_filter ignore
  /\ GHSrcRepo_releases_body
       (GHSrcRepo_releases_body source None (Some ignore)) tag_filter None
     = Differ_spec source tag_filter ignore.
Proof.
  repeat split; try intros p; try intros h self net;
    try apply (body_is_Differ_spec _ _ (Some ignore));
    try apply (body_is_Differ_spec _ _ None).
  - rewrite !body_is_Differ_spec. unfold Differ_spec.
    rewrite genexpr_if_layered. apply genexpr_if_ext. intros a.
    unfold Differ_predicate; simpl. now rewrite andb_true_r.
  - rewrite !body_is_Differ_spec. unfold Differ_spec.
    rewrite genexpr_if_layered. apply genexpr_if_ext. intros a.
    unfold Differ_predicate; simpl. rewrite andb_true_r. apply andb_comm.
Qed.

End repo_facts.

(** ** [repo.py]: fetch errors *)

Module fetch_facts.
Import release repo Gen_facts.

Section Listing.
Variable parse : string -> Exc (list ReleaseData).
Variable headers : gmap string string.

Lemma raise_for_status_error (response : Response) :
  (400 <= status_code response < 600)%Z ->
  raise_for_status response = Raised (HTTPError (status_code response)).
Proof.
  intros [Hlo Hhi]. unfold raise_for_status.
  apply Z.leb_le in Hlo. apply Z.ltb_lt in Hhi. now rewrite Hlo, Hhi.
Qed.

Lemma raise_for_status_pass (response : Response) :
  (status_code response < 400 \/ 600 <= status_code response)%Z ->
  raise_for_status response = Ok tt.
Proof.
  intros H. unfold raise_for_status.
  destruct (Z.leb_spec 400 (status_code response));
    destruct (Z.ltb_spec (status_code response) 600); simpl; auto; lia.
Qed.

(** A response that [raise_for_status] rejects ends the loop where the loop
    would have waited for it; what the network holds after it is never
    looked at. *)
Lemma releases_loop_rejected (bad : Response) (e : Exception)
  (rest pre : list Response) :
  raise_for_status bad = Raised e ->
  forall url,
    releases_loop parse headers url (pre ++ bad :: rest)
    = resume (Throw e) (releases_loop parse headers url pre).
Proof.
  intros Hbad. induction pre as [|r pre IH]; intros url; simpl.
  - now rewrite Hbad.
  - f_equal. destruct (raise_for_status r); [|reflexivity].
    destruct (parse (content r)) as [records|]; [|reflexivity].
    rewrite resume_yield_from. f_equal.
    destruct (links r !! "next"); [apply IH | reflexivity].
Qed.

(** A loop left waiting has used up every response and has one more request
    out. *)
Lemma releases_loop_blocked (pre : list Response) :
  forall url,
    outcome (releases_loop parse headers url pre) = Blocked ->
    length (requested (releases_loop parse headers url pre))
    = S (length pre).
Proof.
  induction pre as [|r pre IH]; intros url; simpl; [reflexivity|].
  destruct (raise_for_status r); [|discriminate].
  destruct (parse (content r)) as [records|]; [|discriminate].
  rewrite outcome_yield_from, requested_yield_from.
  destruct (links r !! "next"); [|discriminate].
  intros H. now rewrite (IH _ H).
Qed.

End Listing.

(** C9, as the code has it: while listing releases, a response with a client
    or server error status (4xx, 5xx) makes the listing fail with
    [HTTPError]; nothing catches it, in the listing or in the Differ over
    it; the failing request is the last one sent, whatever further pages the
    network would have served; and what was yielded before stays yielded. *)
Theorem fetch_error_aborts_listing
  (parse : string -> Exc (list ReleaseData)) (headers : gmap string string)
  (self : GHRepo) (pre : list Response) (bad : Response)
  (rest : list Response)
  (tag_filter : option Re.Pattern) (ignore : list Release) :
  outcome (GHRepo_releases parse headers self pre) = Blocked ->
  (400 <= status_code bad < 600)%Z ->
  let listing := GHRepo_releases parse headers self (pre ++ bad :: rest) in
  let differ :=
    GHSrcRepo_releases parse headers self (pre ++ bad :: rest)
      tag_filter ignore in
  outcome listing = Failed (HTTPError (status_code bad))
  /\ outcome differ = Failed (HTTPError (status_code bad))
  /\ length (requested listing) = S (length pre)
  /\ requested differ = requested listing
  /\ listing = GHRepo_releases parse headers self (pre ++ [bad])
  /\ yielded listing = yielded (GHRepo_releases parse headers self pre).
Proof.
  intros Hpre Hbad listing differ.
  apply raise_for_status_error in Hbad.
  assert (E : listing
              = resume (Throw (HTTPError (status_code bad)))
                  (GHRepo_releases parse headers self pre))
    by apply (releases_loop_rejected _ _ _ _ _ _ Hbad).
  destruct (resume_Throw (HTTPError (status_code bad)) _ Hpre)
    as (Ho & Hr & Hy).
  rewrite <- E in Ho, Hr, Hy.
  assert (Hd : differ = genexpr_if (Differ_predicate tag_filter ignore) listing)
    by apply repo_facts.body_is_Differ_spec.
  repeat split.
  - exact Ho.
  - now rewrite Hd, outcome_genexpr_if.
  - rewrite Hr. now apply releases_loop_blocked.
  - now rewrite Hd, requested_genexpr_if.
  - rewrite E. symmetry.
    apply (releases_loop_rejected _ _ _ _ _ _ Hbad).
  - exact Hy.
Qed.

Lemma fetch_error_aborts_listing_witness :
  outcome (GHRepo_releases samples.parse ∅ samples.upstream [samples.page1])
  = Blocked
  /\ (400 <= status_code samples.server_error < 600)%Z
  /\ outcome (GHRepo_releases samples.parse ∅ samples.upstream
                ([samples.page1] ++ samples.server_error :: [samples.last_page]))
     = Failed (HTTPError 503).
Proof.
  split; [reflexivity|]. split; [simpl; lia|].
  apply (fetch_error_aborts_listing samples.parse ∅ samples.upstream
           [samples.page1] samples.server_error [samples.last_page] None []).
  - reflexivity.
  - simpl; lia.
Defined.

(** C9, as stated, fails on a status outside 2xx that is no error status:
    the listing goes on with the body and returns. *)
Lemma non_2xx_listing_returns :
  ~ (200 <= status_code samples.multiple_choices < 300)%Z
  /\ raise_for_status samples.multiple_choices = Ok tt
  /\ outcome (GHRepo_releases samples.parse ∅ samples.upstream
                [samples.multiple_choices]) = Returned
  /\ forall e,
       outcome (GHRepo_releases samples.parse ∅ samples.upstream
                  [samples.multiple_choices]) <> Failed e.
Proof.
  split; [simpl; lia|]. split; [reflexivity|]. split; [reflexivity|].
  intros e; discriminate.
Qed.

End fetch_facts.

(** ** [http.py]: the session credential *)

Module http_facts.
Import http PyStr_facts.

(** C2, as the code has it: the credential is the value of GITHUB_TOKEN
    whenever that variable is set, be it to the empty string; the value of
    GH_TOKEN when only that one is set; and empty otherwise.  The session
    gets an Authorization header exactly when the credential starts with
    "ghp_", and the header is then "Bearer " followed by the credential. *)
Theorem token_first_set_variable (environ : gmap string string) :
  (forall v, environ !! "GITHUB_TOKEN" = Some v -> token environ = v)
  /\ (forall v,
        environ !! "GITHUB_TOKEN" = None ->
        environ !! "GH_TOKEN" = Some v -> token environ = v)
  /\ (environ !! "GITHUB_TOKEN" = None ->
      environ !! "GH_TOKEN" = None -> token environ = "")
  /\ (forall h,
        SESSION_headers environ !! "Authorization" = Some h <->
        (exists t, token environ = "ghp_" +:+ t)
        /\ h = "Bearer " +:+ token environ)
  /\ (forall call,
        call !! "Authorization" = None ->
        request_headers (SESSION_headers environ) call !! "Authorization"
        = SESSION_headers environ !! "Authorization").
Proof.
  split; [|split; [|split; [|split]]]; cycle 4.
  { intros call Hcall. unfold request_headers.
    now rewrite lookup_union_r. }
  - intros v Hv. unfold token, environ_get. now rewrite Hv.
  - intros v H1 H2. unfold token, environ_get. now rewrite H1, H2.
  - intros H1 H2. unfold token, environ_get. now rewrite H1, H2.
  - intros h. unfold SESSION_headers.
    destruct (PyStr.startswith "ghp_" (token environ)) eqn:E.
    + rewrite lookup_insert_eq. split.
      * intros [= <-]. split; [|reflexivity].
        now apply startswith_inv in E.
      * now intros [_ ->].
    + split.
      * intros Hh. vm_compute in Hh. discriminate.
      * intros [[t Ht] _]. rewrite Ht, startswith_append in E. discriminate.
Qed.

Lemma token_first_set_variable_witness :
  samples.only_second !! "GITHUB_TOKEN" = None
  /\ samples.only_second !! "GH_TOKEN" = Some "ghp_0123456789"
  /\ token samples.only_second = "ghp_0123456789".
Proof.
  split; [reflexivity|]. split; [reflexivity|].
  apply (proj1 (proj2 (token_first_set_variable samples.only_second)));
    reflexivity.
Defined.

(** C2, as stated, fails when the first variable is set to the empty string
    and the second holds a token: the credential is the empty string, not
    the token, and no Authorization header is set. *)
Lemma empty_first_variable_wins :
  samples.empty_first !! "GITHUB_TOKEN" = Some ""
  /\ samples.empty_first !! "GH_TOKEN" = Some "ghp_0123456789"
  /\ token samples.empty_first = ""
  /\ token samples.empty_first <> "ghp_0123456789"
  /\ SESSION_headers samples.empty_first !! "Authorization" = None.
Proof. repeat split; try reflexivity. vm_compute. discriminate. Qed.

End http_facts.

(** ** [redist.py]: platform mapping in [build] *)

Module build_facts.
Import redist.

Lemma map_platform_cases (s : string) :
  match PyStr.find "-" (stem s) with
  | Some i => map_platform s = Ok (PLATFORMS !! PyStr.drop (i + 1) (stem s))
  | None => map_platform s = Raised (ValueError "substring not found")
  end.
Proof.
  unfold map_platform, PyStr.index. fold (stem s).
  destruct (PyStr.find "-" (stem s)); reflexivity.
Qed.

Section Loop.
Variables (verbose : bool) (markup_escape : string -> string)
  (src_rel : string).

(** An asset whose platform is not in the table: a warning, and on to the
    next asset. *)
Lemma build_assets_unknown_platform (exe_src : DirEntry)
  (entries : list DirEntry) (st : BuildState) :
  is_file exe_src = true ->
  map_platform (entry_name exe_src) = Ok None ->
  build_assets verbose markup_escape src_rel (exe_src :: entries) st
  = build_assets verbose markup_escape src_rel entries
      (log warning_
         ("Unknown platform [bold]" +:+ markup_escape (entry_name exe_src)
          +:+ "[/bold]") st).
Proof. intros Hf Hm. simpl. now rewrite Hf, Hm. Qed.

(** An asset whose name has no dash where the platform is looked for: the
    [ValueError] of [str.index] leaves the loop, and the assets after it are
    not built. *)
Lemma build_assets_no_dash (exe_src : DirEntry)
  (entries : list DirEntry) (st : BuildState) :
  is_file exe_src = true ->
  PyStr.find "-" (stem (entry_name exe_src)) = None ->
  build_assets verbose markup_escape src_rel (exe_src :: entries) st
  = Raised (ValueError "substring not found").
Proof.
  intros Hf Hm. simpl. rewrite Hf; simpl.
  pose proof (map_platform_cases (entry_name exe_src)) as H.
  rewrite Hm in H. now rewrite H.
Qed.

End Loop.

(** C3 at the asset name "protoc-win64.zip": once ".zip" and "protoc-" are
    taken off, "win64" has no dash, [map_platform] raises [ValueError]
    instead of returning, and the loop of [build] ends with that error
    whatever assets follow; an asset of an unlisted platform with a
    well-placed dash only gets the warning. *)
Theorem build_raises_on_name_without_dash (verbose : bool)
  (markup_escape : string -> string) (src_rel : string)
  (zip_file : list (string * string)) (entries : list DirEntry)
  (st : BuildState) :
  map_platform "protoc-win64.zip" = Raised (ValueError "substring not found")
  /\ build_assets verbose markup_escape src_rel
       (mkDirEntry "protoc-win64.zip" true zip_file :: entries) st
     = Raised (ValueError "substring not found")
  /\ build_assets verbose markup_escape src_rel
       [mkDirEntry "protoc-3.21.0-linux-sparc.zip" true zip_file] st
     = Ok (log warning_
             ("Unknown platform [bold]"
              +:+ markup_escape "protoc-3.21.0-linux-sparc.zip"
              +:+ "[/bold]") st).
Proof.
  split; [reflexivity|]. split.
  - now apply build_assets_no_dash.
  - now rewrite build_assets_unknown_platform.
Qed.

End build_facts.

(** ** [redist.py]: reproducible wheel entries *)

Module wheel_facts.
Import redist.

(** C10: whatever [ZipInfo] the caller hands to
    [ReproducibleWheelFile.writestr], the entry is appended under a header
    with [create_system] 3 and [date_time] (1980, 1, 1, 0, 0, 0); the date
    and system the caller had put there leave no mark on the archive.  So
    each of the entries that [assemble] writes carries these two values, and
    the archive is the same on every platform. *)
Theorem writestr_is_reproducible (self : WheelFile) (zi : ZipInfo)
  (data : string) :
  let written := ReproducibleWheelFile_writestr self zi data in
  entries (snd written) = (entries self ++ [(fst written, data)])%list
  /\ create_system (fst written) = 3%Z
  /\ date_time (fst written) = EPOCH
  /\ filename (fst written) = filename zi
  /\ (forall dt cs,
        ReproducibleWheelFile_writestr self
          (set_date_time dt (set_create_system cs zi)) data
        = written)
  /\ (forall win32 whl_name exe_name exe_bytes license_ metadata wheel,
        Forall (fun entry => create_system (fst entry) = 3%Z
                             /\ date_time (fst entry) = EPOCH)
          (entries (assemble_entries win32 whl_name exe_name exe_bytes
                      license_ metadata wheel))
        /\ assemble_entries win32 whl_name exe_name exe_bytes
             license_ metadata wheel
           = assemble_entries (negb win32) whl_name exe_name exe_bytes
               license_ metadata wheel).
Proof.
  simpl. repeat split; try reflexivity.
  repeat constructor.
Qed.

End wheel_facts.

(** * More properties *)

Local Open Scope list_scope.

(** ** [release.py]: equality, hashing, selection *)

Module release_more.
Import release release_hash.

(** X1: equality of releases and equality of assets are equivalence
    relations: reflexive, symmetric and transitive. *)
Theorem eq_is_equivalence :
  (forall r, Release_eq r r = true)
  /\ (forall r1 r2, Release_eq r1 r2 = Release_eq r2 r1)
  /\ (forall r1 r2 r3,
        Release_eq r1 r2 = true -> Release_eq r2 r3 = true ->
        Release_eq r1 r3 = true)
  /\ (forall a, Asset_eq a a = true)
  /\ (forall a1 a2, Asset_eq a1 a2 = Asset_eq a2 a1)
  /\ (forall a1 a2 a3,
        Asset_eq a1 a2 = true -> Asset_eq a2 a3 = true ->
        Asset_eq a1 a3 = true).
Proof.
  unfold Asset_eq, Release_eq. repeat split; intros.
  - apply String.eqb_refl.
  - apply String.eqb_sym.
  - rewrite String.eqb_eq in *. congruence.
  - now rewrite !String.eqb_refl.
  - now rewrite (String.eqb_sym (A_name a1)),
      (String.eqb_sym (R_tag (A_release a1))).
  - rewrite andb_true_iff, !String.eqb_eq in *. intuition congruence.
Qed.

(** X2: equal objects hash alike, whatever string hash the interpreter
    uses: releases that compare equal have the same hash, and so have
    assets. *)
Theorem eq_implies_same_hash (hash : string -> Z) :
  (forall r1 r2,
     Release_eq r1 r2 = true -> Release_hash hash r1 = Release_hash hash r2)
  /\ (forall a1 a2,
        Asset_eq a1 a2 = true -> Asset_hash hash a1 = Asset_hash hash a2).
Proof.
  unfold Release_hash, Asset_hash, Asset_eq, Release_eq. split.
  - now intros r1 r2 ->%String.eqb_eq.
  - intros a1 a2 [E _]%andb_true_iff. now apply String.eqb_eq in E as ->.
Qed.

(** X3: every asset that [Release.assets] gives, filtered or not, points
    back to the release it was asked of, is built from one of that release's
    asset records and is named after it; so two assets of one release are
    equal exactly when they have the same name. *)
Theorem assets_belong_to_release (r : Release)
  (asset_filter : option Re.Pattern) :
  (forall a,
     In a (assets r asset_filter) ->
     A_release a = r
     /\ In (A_data a) (assets_ (R_data r))
     /\ name a = name_ (A_data a))
  /\ (forall a b,
        In a (assets r asset_filter) -> In b (assets r asset_filter) ->
        (Asset_eq a b = true <-> name a = name b)).
Proof.
  assert (H : forall a, In a (assets r asset_filter) ->
                        exists d, In d (assets_ (R_data r))
                                  /\ a = Asset_init d r).
  { intros a Ha. apply release_facts.In_assets_all.
    destruct asset_filter as [p|]; [|exact Ha].
    unfold assets in Ha. now apply filter_In in Ha as [Ha _]. }
  split.
  - intros a (d & Hd & ->)%H. auto.
  - intros a b (d & _ & ->)%H (e & _ & ->)%H.
    unfold Asset_eq, name; simpl.
    rewrite release_facts.Release_eq_refl, andb_true_r.
    apply String.eqb_eq.
Qed.

Lemma Pattern_match_nullable (p : Re.Pattern) (s : string) :
  Re.nullable p = true -> Re.Pattern_match p s = true.
Proof. intros H. destruct s; simpl; now rewrite H. Qed.

Lemma Pattern_match_extend (p : Re.Pattern) (s t : string) :
  Re.Pattern_match p s = true -> Re.Pattern_match p (s +:+ t) = true.
Proof.
  rewrite !Re_facts.Pattern_match_anchored.
  intros (pre & suf & -> & H). exists pre, (suf +:+ t). split; [|exact H].
  clear H. induction pre as [|a pre IH]; simpl; [reflexivity|].
  now rewrite IH.
Qed.


End release_more.

(** ** [http.py]: what the credential touches *)

Module http_more.
Import http.

(** X5: importing the module changes the session's headers at
    [Authorization] at most, and what it puts there depends on the two
    variables GITHUB_TOKEN and GH_TOKEN alone; with neither set the headers
    are those of a fresh session. *)
Theorem SESSION_headers_frame (environ : gmap string string) :
  (forall key,
     key <> "Authorization" ->
     SESSION_headers environ !! key = Session_headers !! key)
  /\ (forall environ' : gmap string string,
        environ' !! "GITHUB_TOKEN" = environ !! "GITHUB_TOKEN" ->
        environ' !! "GH_TOKEN" = environ !! "GH_TOKEN" ->
        SESSION_headers environ' = SESSION_headers environ)
  /\ (environ !! "GITHUB_TOKEN" = None -> environ !! "GH_TOKEN" = None ->
      SESSION_headers environ = Session_headers).
Proof.
  split; [|split].
  - intros key Hkey. unfold SESSION_headers.
    destruct (PyStr.startswith "ghp_" (token environ)); [|reflexivity].
    now rewrite lookup_insert_ne.
  - intros environ' H1 H2.
    unfold SESSION_headers, token, environ_get. now rewrite H1, H2.
  - intros H1 H2. unfold SESSION_headers, token, environ_get.
    now rewrite H1, H2.
Qed.

End http_more.

(** ** Runs: more bookkeeping *)

Module Gen_more.
Import Gen_facts.

Section Runs.
Context {A : Type}.
Implicit Types (g k : Gen A) (p : A -> bool).

Lemma events_yield_from (xs : list A) k :
  events (yield_from xs k) = (map inr xs ++ events k)%list.
Proof. induction xs as [|x xs IH]; simpl; [|rewrite IH]; reflexivity. Qed.

Lemma sent_yield_from (xs : list A) k : sent (yield_from xs k) = sent k.
Proof. induction xs; simpl; auto. Qed.

Lemma sent_genexpr_if p g : sent (genexpr_if p g) = sent g.
Proof.
  induction g as [| | |a k IH|url h k IH]; simpl; auto.
  - now destruct (p a).
  - now rewrite IH.
Qed.

Lemma length_sent g : length (sent g) = length (requested g).
Proof. induction g as [| | |a k IH|url h k IH]; simpl; auto. Qed.

Lemma filter_sublist p (l : list A) : sublist (List.filter p l) l.
Proof.
  induction l as [|a l IH]; simpl; [constructor|].
  destruct (p a); now constructor.
Qed.

Lemma filter_none p (l : list A) :
  (forall a, In a l -> p a = false) -> List.filter p l = [].
Proof.
  induction l as [|a l IH]; simpl; intros H; [reflexivity|].
  rewrite (H a) by now left. apply IH. intros b Hb. apply H. now right.
Qed.

Lemma genexpr_if_ext_in p q g :
  (forall a, In a (yielded g) -> p a = q a) ->
  genexpr_if p g = genexpr_if q g.
Proof.
  induction g as [| | |a k IH|url h k IH]; simpl; intros E; auto.
  - rewrite (E a) by now left. rewrite IH; [reflexivity|].
    intros b Hb. apply E. now right.
  - now rewrite IH.
Qed.

End Runs.

Section Loops.
Context {A B : Type}.

Lemma unpack_failed (g : Gen A) (e : Exception) :
  outcome g = Failed e ->
  forall (seen : list A) (f : list A -> Gen B),
    outcome (unpack g seen f) = Failed e
    /\ requested (unpack g seen f) = requested g
    /\ yielded (unpack g seen f) = [].
Proof.
  induction g as [| | |a k IH|url h k IH]; simpl; intros H seen f;
    try discriminate.
  - injection H as ->. auto.
  - now apply IH.
  - destruct (IH H seen f) as (? & -> & ?). auto.
Qed.

Lemma unpack_returned (g : Gen A) :
  outcome g = Returned ->
  forall (seen : list A) (f : list A -> Gen B),
    let rest := f (seen ++ yielded g)%list in
    outcome (unpack g seen f) = outcome rest
    /\ requested (unpack g seen f) = (requested g ++ requested rest)%list
    /\ yielded (unpack g seen f) = yielded rest.
Proof.
  induction g as [| | |a k IH|url h k IH]; simpl; intros H seen f;
    try discriminate.
  - now rewrite app_nil_r.
  - specialize (IH H (seen ++ [a]) f). simpl in IH.
    now rewrite <- app_assoc in IH.
  - destruct (IH H seen f) as (? & -> & ?). auto.
Qed.

Lemma for_each_run (g : Gen A) (body : A -> list B) :
  outcome (for_each g body) = outcome g
  /\ requested (for_each g body) = requested g
  /\ yielded (for_each g body) = flat_map body (yielded g).
Proof.
  induction g as [| | |a k (IH1 & IH2 & IH3)|url h k (IH1 & IH2 & IH3)];
    simpl; auto.
  - now rewrite outcome_yield_from, requested_yield_from,
      yielded_yield_from, IH3.
  - now rewrite IH2.
Qed.

End Loops.

End Gen_more.

(** ** [repo.py]: the repository and its pages *)

Module repo_more.
Import release repo pages Gen_facts Gen_more PyStr_facts.

Lemma rstrip_no_trailing (c : ascii) (s : string) :
  forall t, PyStr.rstrip c s <> t +:+ String c "".
Proof.
  induction s as [|a s IH]; intros t; simpl.
  - now destruct t.
  - destruct (PyStr.rstrip c s) as [|b r] eqn:E.
    + destruct (Ascii.eqb_spec a c) as [->|Hne]; [now destruct t|].
      destruct t as [|a' [|? ?]]; simpl; congruence.
    + destruct t as [|a' t]; simpl; [discriminate|].
      intros [= <- H]. now apply (IH t).
Qed.

Lemma rstrip_append (c : ascii) (s : string) :
  PyStr.rstrip c (s +:+ String c "") = PyStr.rstrip c s.
Proof.
  induction s as [|a s IH]; simpl.
  - now rewrite Ascii.eqb_refl.
  - now rewrite IH.
Qed.

Lemma rstrip_id (c : ascii) (s : string) :
  (forall t, s <> t +:+ String c "") -> PyStr.rstrip c s = s.
Proof.
  induction s as [|a s IH]; intros H; simpl; [reflexivity|].
  destruct s as [|b s].
  - simpl. destruct (Ascii.eqb_spec a c) as [->|]; [|reflexivity].
    now destruct (H "").
  - rewrite IH; [reflexivity|].
    intros t E. apply (H (String a t)). simpl. now rewrite E.
Qed.

(** X6: a base URL is stored without trailing slashes, so that writing it
    with or without one names the same repository; a base URL that has none
    is stored as it is; and the first request of a listing goes to
    [base_url/repos/<repo>/releases?per_page=100]. *)
Theorem GHRepo_init_strips_slashes (repo base_url : string) :
  (forall t, base_url_ (GHRepo_init repo (Some base_url)) <> t +:+ "/")
  /\ GHRepo_init repo (Some (base_url +:+ "/"))
     = GHRepo_init repo (Some base_url)
  /\ ((forall t, base_url <> t +:+ "/") ->
      base_url_ (GHRepo_init repo (Some base_url)) = base_url)
  /\ (forall parse headers net,
        exists more,
          requested (GHRepo_releases parse headers
                       (GHRepo_init repo (Some (base_url +:+ "/"))) net)
          = (PyStr.rstrip "/" base_url +:+ "/repos/" +:+ repo
             +:+ "/releases?per_page=100") :: more).
Proof.
  unfold GHRepo_init; simpl. repeat split.
  - apply rstrip_no_trailing.
  - now rewrite rstrip_append.
  - apply rstrip_id.
  - intros parse headers net. unfold GHRepo_releases; simpl.
    rewrite rstrip_append. destruct net; simpl; eauto.
Qed.

Section Listing.
Variable parse : string -> Exc (list ReleaseData).
Variable headers : gmap string string.

Lemma releases_loop_pages (pre : list Response) (last : Response)
  (rest : list Response) :
  Forall (page_ok parse) (pre ++ [last]) ->
  Forall (fun r => is_Some (links r !! "next")) pre ->
  links last !! "next" = None ->
  forall url,
    let run := releases_loop parse headers url (pre ++ last :: rest) in
    let urls := url :: omap (fun r => links r !! "next") pre in
    outcome run = Returned
    /\ requested run = urls
    /\ yielded run = flat_map (page_releases parse) (pre ++ [last])
    /\ events run
       = flat_map (fun ur => inl (fst ur)
                             :: map inr (page_releases parse (snd ur)))
           (combine urls (pre ++ [last])).
Proof.
  intros Hok Hnext Hlast.
  induction pre as [|r pre IH]; intros url; cbv zeta.
  - apply Forall_inv in Hok as [Hs [records Hp]].
    assert (E : releases_loop parse headers url ([] ++ last :: rest)
                = Get url (http.request_headers headers http.ACCEPT_JSON)
                    (yield_from (page_releases parse last) Stop)).
    { simpl. unfold page_releases. now rewrite Hs, Hp, Hlast. }
    rewrite E. cbn [outcome requested yielded events omap list_omap].
    rewrite outcome_yield_from, requested_yield_from, yielded_yield_from,
      events_yield_from.
    cbn. now rewrite !app_nil_r.
  - rewrite <- !app_comm_cons in *.
    apply Forall_cons in Hok as [[Hs [records Hp]] Hok].
    apply Forall_cons in Hnext as [[next Hn] Hnext].
    assert (E : releases_loop parse headers url (r :: pre ++ last :: rest)
                = Get url (http.request_headers headers http.ACCEPT_JSON)
                    (yield_from (page_releases parse r)
                       (releases_loop parse headers next
                          (pre ++ last :: rest)))).
    { simpl. unfold page_releases. now rewrite Hs, Hp, Hn. }
    assert (Eo : omap (fun r => links r !! "next") (r :: pre)
                 = next :: omap (fun r => links r !! "next") pre).
    { cbn. now rewrite Hn. }
    rewrite E, Eo. destruct (IH Hok Hnext next) as (Ho & Hr & Hy & He).
    cbn [outcome requested yielded events combine flat_map fst snd].
    rewrite outcome_yield_from, requested_yield_from, yielded_yield_from,
      events_yield_from, Ho, Hr, Hy, He.
    repeat split; reflexivity.
Qed.

Lemma releases_loop_requests (net : list Response) :
  forall url,
    let run := releases_loop parse headers url net in
    Forall (fun h => h = http.request_headers headers http.ACCEPT_JSON)
      (sent run)
    /\ length (requested run) <= S (length net)
    /\ (outcome run <> Blocked -> length (requested run) <= length net).
Proof.
  induction net as [|r net IH]; intros url; simpl.
  - repeat split; [repeat constructor | lia | congruence].
  - destruct (raise_for_status r);
      [|simpl; repeat split; [repeat constructor | lia | lia]].
    destruct (parse (content r)) as [records|];
      [|simpl; repeat split; [repeat constructor | lia | lia]].
    rewrite sent_yield_from, requested_yield_from, outcome_yield_from.
    destruct (links r !! "next") as [next|];
      [|simpl; repeat split; [repeat constructor | lia | lia]].
    destruct (IH next) as (Hs & Hle & Hb). simpl in *.
    repeat split; [now constructor | lia |].
    intros H. specialize (Hb H). lia.
Qed.

(** A body that does not parse ends the loop like an error status does. *)
Lemma releases_loop_unparsable (bad : Response) (e : Exception)
  (rest pre : list Response) :
  raise_for_status bad = Ok tt ->
  parse (content bad) = Raised e ->
  forall url,
    releases_loop parse headers url (pre ++ bad :: rest)
    = resume (Throw e) (releases_loop parse headers url pre).
Proof.
  intros Hs Hp. induction pre as [|r pre IH]; intros url; simpl.
  - now rewrite Hs, Hp.
  - f_equal. destruct (raise_for_status r); [|reflexivity].
    destruct (parse (content r)) as [records|]; [|reflexivity].
    rewrite resume_yield_from. f_equal.
    destruct (links r !! "next"); [apply IH | reflexivity].
Qed.

End Listing.

End repo_more.

(** ** [repo.py]: listings and the Differ, as whole runs *)

Module listing_facts.
Import release repo pages Gen_facts Gen_more repo_more.

(** X7: when every page is accepted (no error status, a body that parses)
    and every page but the last announces a next one, the listing returns;
    it requests the first URL and then each announced link, one request per
    page and none after the last; it yields the releases of all pages in
    page order; and the releases of a page are all yielded before the next
    page is requested. *)
Theorem listing_follows_next_links
  (parse : string -> Exc (list ReleaseData)) (headers : gmap string string)
  (self : GHRepo) (pre : list Response) (last : Response)
  (rest : list Response) :
  Forall (page_ok parse) (pre ++ [last]) ->
  Forall (fun r => is_Some (links r !! "next")) pre ->
  links last !! "next" = None ->
  let run := GHRepo_releases parse headers self (pre ++ last :: rest) in
  let urls :=
    (base_url_ self +:+ "/repos/" +:+ repo_ self +:+ "/releases?per_page=100")
    :: omap (fun r => links r !! "next") pre in
  outcome run = Returned
  /\ requested run = urls
  /\ length (requested run) = length (pre ++ [last])
  /\ yielded run = flat_map (page_releases parse) (pre ++ [last])
  /\ events run
     = flat_map (fun ur => inl (fst ur)
                           :: map inr (page_releases parse (snd ur)))
         (combine urls (pre ++ [last])).
Proof.
  intros Hok Hnext Hlast run urls.
  destruct (releases_loop_pages parse headers pre last rest Hok Hnext Hlast
              (base_url_ self +:+ "/repos/" +:+ repo_ self
               +:+ "/releases?per_page=100")) as (Ho & Hr & Hy & He).
  repeat split; try assumption.
  unfold run, GHRepo_releases. rewrite Hr. simpl.
  rewrite length_app. simpl.
  assert (E : length (omap (fun r => links r !! "next") pre) = length pre).
  { clear -Hnext. induction Hnext as [|r l [next Hn] _ IH]; cbn;
      [reflexivity|]. rewrite Hn. simpl. now rewrite IH. }
  rewrite E. lia.
Qed.

Lemma listing_follows_next_links_witness :
  yielded (GHRepo_releases samples.parse ∅ samples.upstream
             ([samples.page1] ++ samples.last_page :: [samples.server_error]))
  = flat_map (page_releases samples.parse)
      ([samples.page1] ++ [samples.last_page]).
Proof.
  apply (listing_follows_next_links samples.parse ∅ samples.upstream
           [samples.page1] samples.last_page [samples.server_error]).
  - repeat constructor; eexists; reflexivity.
  - repeat constructor. eexists; reflexivity.
  - reflexivity.
Defined.

(** X8: every request of a listing carries [Accept: application/json] (the
    call's header wins over the session's own [Accept]) and the session's
    [Authorization]; and a listing never sends more than one request per
    response it gets, plus the one it may be left waiting on. *)
Theorem listing_requests
  (parse : string -> Exc (list ReleaseData)) (headers : gmap string string)
  (self : GHRepo) (net : list Response) :
  let run := GHRepo_releases parse headers self net in
  Forall (fun h => h !! "Accept" = Some "application/json"
                   /\ h !! "Authorization" = headers !! "Authorization")
    (sent run)
  /\ length (sent run) = length (requested run)
  /\ length (requested run) <= S (length net)
  /\ (outcome run <> Blocked -> length (requested run) <= length net).
Proof.
  intros run.
  destruct (releases_loop_requests parse headers net
              (base_url_ self +:+ "/repos/" +:+ repo_ self
               +:+ "/releases?per_page=100")) as (Hs & Hle & Hb).
  split; [|split; [apply length_sent | split; assumption]].
  eapply Forall_impl; [exact Hs|]. intros h ->.
  unfold http.request_headers, http.ACCEPT_JSON. split.
  - apply lookup_union_Some_l. apply lookup_singleton_eq.
  - apply lookup_union_r. now apply lookup_singleton_ne.
Qed.

(** X9: a page whose body does not parse ends the listing with the
    parser's error: the error reaches the caller of the listing and of the
    Differ, the request for that page is the last one sent, and what earlier
    pages yielded stays yielded. *)
Theorem parse_error_aborts_listing
  (parse : string -> Exc (list ReleaseData)) (headers : gmap string string)
  (self : GHRepo) (pre : list Response) (bad : Response)
  (rest : list Response) (e : Exception)
  (tag_filter : option Re.Pattern) (ignore : list Release) :
  outcome (GHRepo_releases parse headers self pre) = Blocked ->
  raise_for_status bad = Ok tt ->
  parse (content bad) = Raised e ->
  let listing := GHRepo_releases parse headers self (pre ++ bad :: rest) in
  let differ :=
    GHSrcRepo_releases parse headers self (pre ++ bad :: rest)
      tag_filter ignore in
  outcome listing = Failed e
  /\ outcome differ = Failed e
  /\ length (requested listing) = S (length pre)
  /\ requested differ = requested listing
  /\ yielded listing = yielded (GHRepo_releases parse headers self pre).
Proof.
  intros Hpre Hs Hp listing differ.
  assert (E : listing
              = resume (Throw e) (GHRepo_releases parse headers self pre))
    by apply (releases_loop_unparsable _ _ _ _ _ _ Hs Hp).
  destruct (resume_Throw e _ Hpre) as (Ho & Hr & Hy).
  rewrite <- E in Ho, Hr, Hy.
  assert (Hd : differ = genexpr_if (Differ_predicate tag_filter ignore) listing)
    by apply repo_facts.body_is_Differ_spec.
  repeat split.
  - exact Ho.
  - now rewrite Hd, outcome_genexpr_if.
  - rewrite Hr. now apply fetch_facts.releases_loop_blocked.
  - now rewrite Hd, requested_genexpr_if.
  - exact Hy.
Qed.

Lemma parse_error_aborts_listing_witness :
  outcome (GHRepo_releases samples.parse ∅ samples.upstream
             ([samples.page1] ++ samples_more.garbled :: [samples.last_page]))
  = Failed (ValueError "malformed JSON").
Proof.
  apply (parse_error_aborts_listing samples.parse ∅ samples.upstream
           [samples.page1] samples_more.garbled [samples.last_page]
           (ValueError "malformed JSON") None []); reflexivity.
Defined.

(** X10: the Differ adds nothing to what its source does: the same
    requests with the same headers, the same ending (return, error or
    wait), and of the source's releases a sublist. *)
Theorem Differ_is_transparent (source : Gen Release)
  (tag_filter : option Re.Pattern) (ignore : list Release) :
  let differ := GHSrcRepo_releases_body source tag_filter (Some ignore) in
  requested differ = requested source
  /\ sent differ = sent source
  /\ outcome differ = outcome source
  /\ sublist (yielded differ) (yielded source).
Proof.
  intros differ. unfold differ. rewrite repo_facts.body_is_Differ_spec.
  unfold Differ_spec.
  rewrite requested_genexpr_if, sent_genexpr_if, outcome_genexpr_if,
    yielded_genexpr_if.
  repeat split. apply filter_sublist.
Qed.

(** X11: when every release of the source has its tag among the
    already-present releases, the Differ yields nothing, whatever the tag
    filter. *)
Theorem Differ_nothing_new (source : Gen Release)
  (tag_filter : option Re.Pattern) (already_present : list Release) :
  (forall it, In it (yielded source) ->
              exists e, In e already_present /\ tag e = tag it) ->
  yielded (GHSrcRepo_releases_body source tag_filter (Some already_present))
  = [].
Proof.
  intros H. rewrite repo_facts.body_is_Differ_spec. unfold Differ_spec.
  rewrite yielded_genexpr_if. apply filter_none. intros it Hit.
  unfold Differ_predicate. apply andb_false_iff. right.
  apply negb_false_iff. apply existsb_exists.
  destruct (H it Hit) as (e & He & Ht). exists e. split; [exact He|].
  now apply String.eqb_eq.
Qed.

Lemma Differ_nothing_new_witness :
  yielded (GHSrcRepo_releases_body
             (GHRepo_releases samples.parse ∅ samples.upstream
                [samples.page1; samples.last_page])
             None (Some samples_more.mirrored))
  = [].
Proof.
  apply (Differ_nothing_new
           (GHRepo_releases samples.parse ∅ samples.upstream
              [samples.page1; samples.last_page])
           None samples_more.mirrored).
  intros it [<-|[<-|[]]].
  - exists (Release_init (samples.release_data "v2" [])).
    split; [right; left; reflexivity | reflexivity].
  - exists (Release_init (samples.release_data "v1" [])).
    split; [left; reflexivity | reflexivity].
Defined.

(** X12: the Differ only looks at which tags are already present: two
    lists of already-present releases that carry the same tags (in any
    order, any number of times, with any data) give the same run; and
    running the Differ over its own result changes nothing. *)
Theorem Differ_depends_on_tags (source : Gen Release)
  (tag_filter : option Re.Pattern) (ignore ignore' : list Release) :
  ((forall t, In t (map tag ignore) <-> In t (map tag ignore')) ->
   GHSrcRepo_releases_body source tag_filter (Some ignore)
   = GHSrcRepo_releases_body source tag_filter (Some ignore'))
  /\ GHSrcRepo_releases_body
       (GHSrcRepo_releases_body source tag_filter (Some ignore))
       tag_filter (Some ignore)
     = GHSrcRepo_releases_body source tag_filter (Some ignore).
Proof.
  split.
  - intros H. rewrite !repo_facts.body_is_Differ_spec. unfold Differ_spec.
    apply genexpr_if_ext. intros it. unfold Differ_predicate. f_equal. f_equal.
    apply eq_true_iff_eq. rewrite !existsb_exists.
    split; intros (e & He & Ht); apply String.eqb_eq in Ht.
    + assert (Hin : In (tag it) (map tag ignore')).
      { apply H. rewrite Ht. now apply in_map. }
      apply in_map_iff in Hin as (e' & He' & Hin).
      exists e'. split; [exact Hin|]. now apply String.eqb_eq.
    + assert (Hin : In (tag it) (map tag ignore)).
      { apply H. rewrite Ht. now apply in_map. }
      apply in_map_iff in Hin as (e' & He' & Hin).
      exists e'. split; [exact Hin|]. now apply String.eqb_eq.
  - rewrite !repo_facts.body_is_Differ_spec. unfold Differ_spec.
    rewrite genexpr_if_layered. apply genexpr_if_ext. intros it.
    now destruct (Differ_predicate tag_filter ignore it).
Qed.

End listing_facts.

(** ** [cli.py]: destination first, then what is new at the source *)

Module cli_facts.
Import release repo redist cli Gen_facts Gen_more.

(** X13: the command lists the destination before it asks the source
    anything: when the destination's listing fails, the command fails with
    the same error, its requests are the destination's and no others, and
    nothing is logged. *)
Theorem cli_destination_error
  (parse : string -> Exc (list ReleaseData)) (headers : gmap string string)
  (src dst : GHRepo) (net_dst net_src : list Response)
  (tag_filter asset_filter : option Re.Pattern) (e : Exception) :
  outcome (GHRepo_releases parse headers dst net_dst) = Failed e ->
  let run :=
    cli parse headers src dst net_dst net_src tag_filter asset_filter in
  outcome run = Failed e
  /\ requested run = requested (GHRepo_releases parse headers dst net_dst)
  /\ yielded run = [].
Proof. intros H run. now apply unpack_failed. Qed.

Lemma cli_destination_error_witness :
  requested (cli samples.parse ∅ samples.upstream
               (GHRepo_init "fleshgrinder/python-protoc-exe" None)
               [samples.server_error] [samples.page1; samples.last_page]
               None None)
  = ["https://api.github.com/repos/fleshgrinder/python-protoc-exe/releases?per_page=100"].
Proof.
  apply (cli_destination_error samples.parse ∅ samples.upstream
           (GHRepo_init "fleshgrinder/python-protoc-exe" None)
           [samples.server_error] [samples.page1; samples.last_page]
           None None (HTTPError 503)).
  reflexivity.
Defined.

(** X14: when the destination's listing returns, the command goes on to
    the source.  Its requests are the destination's followed by the
    source's; it ends as the source's listing ends; and it logs, for each
    source release that passes the tag filter and has the tag of no
    destination release, in source order, a notice with the tag followed by
    one warning per selected asset with the asset's name. *)
Theorem cli_logs_new_releases
  (parse : string -> Exc (list ReleaseData)) (headers : gmap string string)
  (src dst : GHRepo) (net_dst net_src : list Response)
  (tag_filter asset_filter : option Re.Pattern) :
  outcome (GHRepo_releases parse headers dst net_dst) = Returned ->
  let at_dst := GHRepo_releases parse headers dst net_dst in
  let at_src := GHRepo_releases parse headers src net_src in
  let run :=
    cli parse headers src dst net_dst net_src tag_filter asset_filter in
  outcome run = outcome at_src
  /\ requested run = requested at_dst ++ requested at_src
  /\ yielded run
     = flat_map
         (fun r => (notice_, tag r)
                   :: map (fun a => (warning_, name a))
                        (assets r asset_filter))
         (List.filter (Differ_predicate tag_filter (yielded at_dst))
            (yielded at_src)).
Proof.
  intros H at_dst at_src run.
  destruct (unpack_returned _ H []
              (fun ignore =>
                 for_each
                   (GHSrcRepo_releases parse headers src net_src
                      tag_filter ignore)
                   (fun release =>
                      (notice_, Release_str release)
                      :: map (fun asset => (warning_, Asset_str asset))
                           (assets release asset_filter))))
    as (Ho & Hr & Hy).
  cbv zeta in Ho, Hr, Hy. simpl app in Ho, Hr, Hy.
  unfold run, cli. rewrite Ho, Hr, Hy.
  match goal with
  | |- context [for_each ?g ?b] =>
      destruct (for_each_run g b) as (Fo & Fr & Fy)
  end.
  rewrite Fo, Fr, Fy.
  unfold GHSrcRepo_releases. rewrite repo_facts.body_is_Differ_spec.
  unfold Differ_spec.
  rewrite outcome_genexpr_if, requested_genexpr_if, yielded_genexpr_if.
  repeat split.
Qed.

Lemma cli_logs_new_releases_witness :
  yielded (cli samples.parse ∅ samples.upstream
             (GHRepo_init "fleshgrinder/python-protoc-exe" None)
             [samples.last_page] [samples.page1; samples.last_page]
             None (Some samples.linux_zip))
  = [ (notice_, "v2"); (warning_, "protoc-1-linux-x86_64.zip");
      (notice_, "v1"); (warning_, "protoc-1-linux-x86_64.zip") ].
Proof.
  etransitivity.
  - apply (cli_logs_new_releases samples.parse ∅ samples.upstream
             (GHRepo_init "fleshgrinder/python-protoc-exe" None)
             [samples.last_page] [samples.page1; samples.last_page]
             None (Some samples.linux_zip)).
    reflexivity.
  - vm_compute. reflexivity.
Defined.

End cli_facts.

(** ** [console.py], [redist.py]: the escaping of [log] *)

Module console_facts.
Import redist console PyStr_facts.

Ltac eqb_cases :=
  repeat match goal with
         | |- context [Ascii.eqb ?x ?y] =>
             destruct (Ascii.eqb_spec x y); subst; simpl;
             try congruence; try discriminate
         | H : context [Ascii.eqb ?x ?y] |- _ =>
             destruct (Ascii.eqb_spec x y); subst; simpl in H;
             try congruence; try discriminate
         end.

(** The three replacements in a row are one pass over the message. *)
Lemma escape_one_pass (m : string) : escape m = escape_chars m.
Proof.
  unfold escape. induction m as [|a m IH]; [reflexivity|].
  cbn [escape_chars replace]. rewrite <- IH. unfold escape_char.
  destruct (Ascii.eqb_spec a "%") as [->|H1].
  - reflexivity.
  - cbn [replace]. destruct (Ascii.eqb_spec a "010") as [->|H2].
    + reflexivity.
    + cbn [replace]. destruct (Ascii.eqb_spec a "013") as [->|H3];
        reflexivity.
Qed.

Lemma find_append_None (c : ascii) (s t : string) :
  PyStr.find c s = None -> PyStr.find c t = None ->
  PyStr.find c (s +:+ t) = None.
Proof.
  induction s as [|a s IH]; simpl; [auto|].
  destruct (Ascii.eqb a c); [discriminate|].
  destruct (PyStr.find c s); [discriminate|].
  intros _ Ht. now rewrite IH.
Qed.

Lemma escape_char_no_break (a c : ascii) :
  c = "010"%char \/ c = "013"%char ->
  PyStr.find c (escape_char a) = None.
Proof.
  intros [-> | ->]; unfold escape_char; eqb_cases; reflexivity.
Qed.

Lemma escape_chars_no_break (m : string) (c : ascii) :
  c = "010"%char \/ c = "013"%char ->
  PyStr.find c (escape_chars m) = None.
Proof.
  intros Hc. induction m as [|a m IH]; simpl; [reflexivity|].
  apply find_append_None; [now apply escape_char_no_break | exact IH].
Qed.

Lemma escape_chars_injective (m1 : string) :
  forall m2, escape_chars m1 = escape_chars m2 -> m1 = m2.
Proof.
  induction m1 as [|a m1 IH]; intros [|b m2] H.
  - reflexivity.
  - exfalso. simpl in H. unfold escape_char in H. eqb_cases.
  - exfalso. simpl in H. unfold escape_char in H. eqb_cases.
  - cbn [escape_chars] in H.
    assert (a = b /\ escape_chars m1 = escape_chars m2) as [-> E].
    { unfold escape_char in H. eqb_cases; simpl in H;
        injection H; intros; subst; try congruence; auto. }
    f_equal. now apply IH.
Qed.


End console_facts.

(** ** [redist.py]: [map_platform] and the asset loop of [build] *)

Module platform_facts.
Import redist dirs PyStr_facts build_facts.

Lemma append_assoc (s t u : string) : (s +:+ t) +:+ u = s +:+ (t +:+ u).
Proof. induction s as [|a s IH]; simpl; [reflexivity | now rewrite IH]. Qed.

Lemma length_append (s t : string) :
  String.length (s +:+ t) = String.length s + String.length t.
Proof. induction s as [|a s IH]; simpl; [reflexivity | now rewrite IH]. Qed.

Lemma take_append (s t : string) : PyStr.take (String.length s) (s +:+ t) = s.
Proof. induction s as [|a s IH]; simpl; [now destruct t | now rewrite IH]. Qed.

Lemma drop_append_more (s t : string) (n : nat) :
  PyStr.drop (String.length s + n) (s +:+ t) = PyStr.drop n t.
Proof. induction s as [|a s IH]; simpl; [reflexivity | exact IH]. Qed.

(** [(s + ".zip").removesuffix(".zip") == s] *)
Lemma removesuffix_zip (s : string) : PyStr.removesuffix ".zip" (s +:+ ".zip") = s.
Proof.
  unfold PyStr.removesuffix, PyStr.endswith.
  assert (E : String.length (s +:+ ".zip") - String.length ".zip"
              = String.length s) by (rewrite length_append; lia).
  rewrite E, drop_append, take_append, String.eqb_refl.
  assert (L : (String.length ".zip" <=? String.length (s +:+ ".zip"))%nat
              = true)
    by (apply Nat.leb_le; rewrite length_append; lia).
  now rewrite L.
Qed.

Lemma find_append_hit (c : ascii) (s t : string) :
  PyStr.find c s = None ->
  PyStr.find c (s +:+ String c t) = Some (String.length s).
Proof.
  induction s as [|a s IH]; simpl.
  - now rewrite Ascii.eqb_refl.
  - destruct (Ascii.eqb a c); [discriminate|].
    destruct (PyStr.find c s); [discriminate|].
    intros _. now rewrite IH.
Qed.

(** X16: an asset named [protoc-<version>-<platform>.zip], with a version
    that has no dash, is mapped by what the table holds for [<platform>]:
    its wheel tag when the platform is listed, [None] when it is not.  The
    platform is everything after the FIRST dash behind the prefix. *)
Theorem map_platform_release_asset (version platform : string) :
  PyStr.find "-" version = None ->
  map_platform ("protoc-" +:+ version +:+ "-" +:+ platform +:+ ".zip")
  = Ok (PLATFORMS !! platform).
Proof.
  intros Hv.
  pose proof (map_platform_cases
                ("protoc-" +:+ version +:+ "-" +:+ platform +:+ ".zip")) as H.
  assert (E : stem ("protoc-" +:+ version +:+ "-" +:+ platform +:+ ".zip")
              = version +:+ "-" +:+ platform).
  { unfold stem.
    replace ("protoc-" +:+ version +:+ "-" +:+ platform +:+ ".zip")
      with (("protoc-" +:+ version +:+ "-" +:+ platform) +:+ ".zip")
      by (now rewrite !append_assoc).
    rewrite removesuffix_zip.
    now apply (proj1 (removeprefix_spec "protoc-" _)). }
  rewrite E in H.
  change (version +:+ "-" +:+ platform)
    with (version +:+ String "-" platform) in H.
  rewrite (find_append_hit "-" version platform Hv) in H.
  rewrite H. f_equal. f_equal.
  rewrite (drop_append_more version (String "-" platform) 1). reflexivity.
Qed.

Lemma map_platform_release_asset_witness :
  map_platform ("protoc-" +:+ "3.21.0" +:+ "-" +:+ "linux-x86_64" +:+ ".zip")
  = Ok (PLATFORMS !! "linux-x86_64").
Proof.
  apply (map_platform_release_asset "3.21.0" "linux-x86_64"). reflexivity.
Defined.

(** A version with a dash of its own, as release candidates have, shifts
    what is taken for the platform. *)
Example map_platform_release_candidate :
  map_platform "protoc-3.21.0-rc-1-linux-x86_64.zip" = Ok None.
Proof. reflexivity. Qed.

Section Loop.
Variables (verbose : bool) (markup_escape : string -> string)
  (src_rel : string).

(** The state-keeping loop and the loop of [build] end alike. *)
Lemma build_assets_upto_agrees (entries : list DirEntry) :
  forall st,
    build_assets verbose markup_escape src_rel entries st
    = match build_assets_upto verbose markup_escape src_rel entries st with
      | (st', None) => Ok st'
      | (_, Some e) => Raised e
      end.
Proof.
  induction entries as [|en entries IH]; intros st; simpl; [reflexivity|].
  destruct (is_file en); simpl; [|apply IH].
  destruct (map_platform (entry_name en)) as [[p|]|e]; simpl;
    [apply IH | apply IH | reflexivity].
Qed.


Lemma extract_exe_frame (namelist : list string)
  (zip_file : list (string * string)) (exe_platform : string)
  (st : BuildState) :
  logged (extract_exe namelist zip_file exe_platform st) = logged st
  /\ (dst_files (extract_exe namelist zip_file exe_platform st)
      = dst_files st
      \/ exists bytes,
           dst_files (extract_exe namelist zip_file exe_platform st)
           = <[ exe_platform := bytes ]> (dst_files st)).
Proof.
  induction namelist as [|it namelist IH]; simpl; [auto|].
  destruct (_ || _); [|exact IH].
  split; [reflexivity|]. right. eauto.
Qed.

Lemma grows_refl (st : BuildState) : grows st st.
Proof.
  repeat split; [exists []; now rewrite app_nil_r | auto | congruence].
Qed.

Lemma grows_trans (st1 st2 st3 : BuildState) :
  grows st1 st2 -> grows st2 st3 -> grows st1 st3.
Proof.
  intros ([l1 L1] & K1 & N1) ([l2 L2] & K2 & N2). repeat split.
  - exists (l1 ++ l2). now rewrite L2, L1, app_assoc.
  - auto.
  - intros k Hk.
    destruct (decide (dst_files st2 !! k = dst_files st1 !! k)) as [E|E].
    + apply N2. congruence.
    + now apply N1.
Qed.

Lemma grows_log (s : Severity) (m : string) (st : BuildState) :
  grows st (log s m st).
Proof. repeat split; simpl; [eauto | auto | congruence]. Qed.

Lemma extract_exe_grows (namelist : list string)
  (zip_file : list (string * string)) (key tag : string) (st : BuildState) :
  PLATFORMS !! key = Some tag ->
  grows st (extract_exe namelist zip_file ("py2.py3-none-" +:+ tag) st).
Proof.
  intros Hkey.
  destruct (extract_exe_frame namelist zip_file ("py2.py3-none-" +:+ tag) st)
    as [Hl [Hd|[bytes Hd]]]; unfold grows; rewrite Hl, Hd.
  - repeat split; [exists []; now rewrite app_nil_r | auto | congruence].
  - repeat split.
    + exists []. now rewrite app_nil_r.
    + intros k Hk.
      destruct (decide ("py2.py3-none-" +:+ tag = k)) as [<-|Hne].
      * rewrite lookup_insert_eq. eauto.
      * now rewrite lookup_insert_ne.
    + intros k.
      destruct (decide ("py2.py3-none-" +:+ tag = k)) as [<-|Hne].
      * eauto.
      * rewrite lookup_insert_ne by exact Hne. congruence.
Qed.

Lemma build_assets_upto_grows (entries : list DirEntry) :
  forall st,
    grows st (fst (build_assets_upto verbose markup_escape src_rel
                     entries st)).
Proof.
  induction entries as [|en entries IH]; intros st;
    cbn [build_assets_upto]; [apply grows_refl|].
  destruct (is_file en); cbn [negb].
  - destruct (map_platform (entry_name en)) as [[p|]|e] eqn:Hm.
    + eapply grows_trans; [|apply IH].
      pose proof (map_platform_cases (entry_name en)) as Hc.
      destruct (PyStr.find "-" (stem (entry_name en))) as [i|];
        rewrite Hm in Hc; [|discriminate].
      injection Hc as Hc. symmetry in Hc.
      eapply extract_exe_grows. exact Hc.
    + eapply grows_trans; [|apply IH]. apply grows_log.
    + apply grows_refl.
  - eapply grows_trans; [|apply IH]. unfold debug.
    destruct verbose; [apply grows_log | apply grows_refl].
Qed.

End Loop.

(** X18: whatever the asset loop of [build] gets through, to its end or up
    to an error, it only adds to the log; it removes no file of the tag
    directory; a file it writes or overwrites is named ["py2.py3-none-"]
    followed by a wheel tag of the platform table; and [LICENSE] is left as
    it was. *)
Theorem build_assets_only_adds (verbose : bool)
  (markup_escape : string -> string) (src_rel : string)
  (entries : list DirEntry) (st : BuildState) :
  let st' :=
    fst (build_assets_upto verbose markup_escape src_rel entries st) in
  (exists more, logged st' = logged st ++ more)
  /\ (forall k, is_Some (dst_files st !! k) -> is_Some (dst_files st' !! k))
  /\ (forall k,
        dst_files st' !! k <> dst_files st !! k ->
        exists key tag,
          PLATFORMS !! key = Some tag /\ k = "py2.py3-none-" +:+ tag)
  /\ dst_files st' !! "LICENSE" = dst_files st !! "LICENSE"
  /\ (forall st'',
        build_assets verbose markup_escape src_rel entries st = Ok st'' ->
        st'' = st').
Proof.
  intros st'.
  destruct (build_assets_upto_grows verbose markup_escape src_rel entries st)
    as (L & K & N).
  fold st' in L, K, N. repeat split; try assumption.
  - destruct (decide (dst_files st' !! "LICENSE"
                      = dst_files st !! "LICENSE")) as [E|E]; [exact E|].
    destruct (N _ E) as (key & t & _ & Hk). discriminate.
  - intros st''. rewrite build_assets_upto_agrees. unfold st'.
    destruct (build_assets_upto _ _ _ _ _) as [s [e|]]; simpl;
      [discriminate | now intros [= <-]].
Qed.

(** X19: an asset of a listed platform whose archive has neither
    [bin/protoc] nor [bin/protoc.exe] leaves no trace: no file is written
    and nothing is logged, and the loop goes on with the next asset. *)
Theorem build_assets_missing_binary (verbose : bool)
  (markup_escape : string -> string) (src_rel : string)
  (exe_src : DirEntry) (entries : list DirEntry) (st : BuildState)
  (exe_platform : string) :
  is_file exe_src = true ->
  map_platform (entry_name exe_src) = Ok (Some exe_platform) ->
  Forall (fun it => it <> "bin/protoc" /\ it <> "bin/protoc.exe")
    (map fst (members exe_src)) ->
  build_assets verbose markup_escape src_rel (exe_src :: entries) st
  = build_assets verbose markup_escape src_rel entries st.
Proof.
  intros Hf Hm Hn. simpl. rewrite Hf, Hm. simpl. f_equal.
  induction Hn as [|it l [H1 H2] _ IH]; simpl; [reflexivity|].
  apply String.eqb_neq in H1, H2. now rewrite H1, H2.
Qed.

Lemma build_assets_missing_binary_witness :
  build_assets false id ".cache/protoc/v3.21.0"
    [mkDirEntry "protoc-3.21.0-linux-x86_64.zip" true
       [("readme.txt", "see https://protobuf.dev/")]]
    (mkBuildState [] ∅)
  = Ok (mkBuildState [] ∅).
Proof.
  apply (build_assets_missing_binary false id ".cache/protoc/v3.21.0"
           (mkDirEntry "protoc-3.21.0-linux-x86_64.zip" true
              [("readme.txt", "see https://protobuf.dev/")])
           [] (mkBuildState [] ∅)
           "manylinux_2_5_x86_64.manylinux1_x86_64").
  - reflexivity.
  - reflexivity.
  - repeat constructor; discriminate.
Defined.

End platform_facts.

(** ** [redist.py]: the tag directories of [build] *)

Module build_dir_facts.
Import redist dirs platform_facts.

Section Tags.
Variables (verbose : bool) (markup_escape : string -> string).

Lemma build_tags_keeps (tags : list CacheEntry) :
  forall log_ dir name files,
    dir !! name = Some files ->
    build_dir (build_tags verbose markup_escape tags log_ dir) !! name = Some files.
Proof.
  induction tags as [|src tags IH]; intros log_ dir name files H;
    cbn [build_tags]; [exact H|].
  destruct (is_dir src); cbn [negb]; [|now apply IH].
  destruct (dir !! cache_name src) eqn:E; [now apply IH|].
  assert (Hne : cache_name src <> name) by congruence.
  destruct (LICENSE src) as [license_|]; cbn [build_dir].
  - destruct (build_assets_upto _ _ _ _ _) as [st [e|]]; cbn [build_dir].
    + now rewrite lookup_insert_ne.
    + apply IH. now rewrite lookup_insert_ne.
  - now rewrite lookup_insert_ne.
Qed.

Lemma build_tags_present (tags : list CacheEntry) :
  forall log_ dir name,
    is_Some (dir !! name) ->
    is_Some (build_dir (build_tags verbose markup_escape tags log_ dir) !! name).
Proof.
  intros log_ dir name [files H]. exists files. now apply build_tags_keeps.
Qed.

Lemma build_tags_log (tags : list CacheEntry) :
  forall log_ dir,
    exists more, build_log (build_tags verbose markup_escape tags log_ dir) = log_ ++ more.
Proof.
  induction tags as [|src tags IH]; intros log_ dir;
    cbn [build_tags].
  { exists []. cbn. now rewrite app_nil_r. }
  assert (Hd : forall m d,
             exists more,
               build_log (build_tags verbose markup_escape tags
                            (if verbose then log_ ++ [m] else log_) d)
               = log_ ++ more).
  { intros m d. destruct verbose; [|apply IH].
    destruct (IH (log_ ++ [m]) d) as [more ->].
    exists ([m] ++ more). now rewrite app_assoc. }
  destruct (is_dir src); cbn [negb]; [|apply Hd].
  destruct (dir !! cache_name src); [apply Hd|].
  destruct (LICENSE src) as [license_|]; cbn [build_log].
  - pose proof (build_assets_upto_grows verbose markup_escape
                  (EXE_CACHE_REL +:+ "/" +:+ cache_name src) (zips src)
                  {| logged := log_; dst_files := {[ "LICENSE" := license_ ]} |})
      as ([l Hl] & _).
    destruct (build_assets_upto _ _ _ _ _) as [st [e|]]; cbn in Hl |- *.
    + eauto.
    + destruct (IH (logged st) (<[cache_name src:=dst_files st]> dir))
        as [more ->].
      exists (l ++ more). now rewrite Hl, app_assoc.
  - exists []. now rewrite app_nil_r.
Qed.

Lemma build_tags_done (tags : list CacheEntry) :
  forall log_ dir,
    failure (build_tags verbose markup_escape tags log_ dir) = None ->
    Forall (fun src => is_dir src = true ->
                       is_Some (build_dir (build_tags verbose markup_escape tags log_ dir)
                                !! cache_name src)) tags.
Proof.
  induction tags as [|src tags IH]; intros log_ dir; [constructor|].
  cbn [build_tags].
  destruct (is_dir src) eqn:Hdir; cbn [negb].
  - destruct (dir !! cache_name src) eqn:E.
    + intros H. constructor; [|now apply IH].
      intros _. apply build_tags_present. rewrite E. eauto.
    + destruct (LICENSE src) as [license_|]; [|cbn; discriminate].
      destruct (build_assets_upto _ _ _ _ _) as [st [e|]];
        [cbn; discriminate|].
      intros H. constructor; [|now apply IH].
      intros _. apply build_tags_present. rewrite lookup_insert_eq. eauto.
  - intros H. constructor; [intros Hd; congruence | now apply IH].
Qed.

Lemma build_tags_skips (tags : list CacheEntry) :
  forall log_ dir,
    Forall (fun src => is_dir src = true ->
                       is_Some (dir !! cache_name src)) tags ->
    build_dir (build_tags verbose markup_escape tags log_ dir) = dir
    /\ failure (build_tags verbose markup_escape tags log_ dir) = None.
Proof.
  induction tags as [|src tags IH]; intros log_ dir H; [auto|].
  apply Forall_cons in H as [Hs H]. cbn [build_tags].
  destruct (is_dir src); cbn [negb]; [|now apply IH].
  destruct (Hs eq_refl) as [files ->]. now apply IH.
Qed.

(** X20: [build] is incremental.  A tag directory that exists when it
    starts is left exactly as it is; the log only grows; when it ends
    without failure every directory among its inputs has a tag directory;
    and when all of them had one already, nothing is built and nothing
    fails. *)
Theorem build_tags_incremental (tags : list CacheEntry)
  (log_ : list (Severity * string))
  (dir : gmap string (gmap string string)) :
  let built := build_tags verbose markup_escape tags log_ dir in
  (forall name files,
     dir !! name = Some files -> build_dir built !! name = Some files)
  /\ (exists more, build_log built = log_ ++ more)
  /\ (failure built = None ->
      Forall (fun src => is_dir src = true ->
                         is_Some (build_dir built !! cache_name src)) tags)
  /\ (Forall (fun src => is_dir src = true ->
                         is_Some (dir !! cache_name src)) tags ->
      build_dir built = dir /\ failure built = None)
  /\ (failure built = None ->
      forall log',
        build_dir (build_tags verbose markup_escape tags log' (build_dir built)) = build_dir built
        /\ failure (build_tags verbose markup_escape tags log' (build_dir built)) = None).
Proof.
  intros built. repeat split.
  - intros name files. apply build_tags_keeps.
  - apply build_tags_log.
  - apply build_tags_done.
  - now apply build_tags_skips.
  - now apply build_tags_skips.
  - apply build_tags_skips. now apply build_tags_done.
  - apply build_tags_skips. now apply build_tags_done.
Qed.

(** X21: a failure of [build] sticks.  When it fails, it fails at a
    directory of the cache that had no tag directory before; the tag
    directory it made for it stays behind with what was written so far; and
    building again up to and including that tag neither fails nor changes
    anything: the unfinished tag directory is taken for a finished one. *)
Theorem build_failure_sticks (tags : list CacheEntry) :
  forall (log_ : list (Severity * string))
    (dir : gmap string (gmap string string)) (f : Failure),
    failure (build_tags verbose markup_escape tags log_ dir) = Some f ->
    exists pre src post,
      tags = pre ++ src :: post
      /\ is_dir src = true
      /\ dir !! cache_name src = None
      /\ is_Some (build_dir (build_tags verbose markup_escape tags log_ dir)
                  !! cache_name src)
      /\ forall log',
           let again :=
             build_tags verbose markup_escape (pre ++ [src]) log'
               (build_dir (build_tags verbose markup_escape tags log_ dir)) in
           failure again = None
           /\ build_dir again
              = build_dir (build_tags verbose markup_escape tags log_ dir).
Proof.
  induction tags as [|src tags IH]; intros log_ dir f; [discriminate|].
  (* the failure is further down: [src] is passed over again next time *)
  assert (Hlater : forall l (d : gmap string (gmap string string)),
             (is_dir src = true -> is_Some (d !! cache_name src)) ->
             (forall name, is_Some (dir !! name) -> is_Some (d !! name)) ->
             failure (build_tags verbose markup_escape tags l d) = Some f ->
             exists pre src0 post,
               src :: tags = pre ++ src0 :: post
               /\ is_dir src0 = true
               /\ dir !! cache_name src0 = None
               /\ is_Some (build_dir (build_tags verbose markup_escape tags l d)
                           !! cache_name src0)
               /\ forall log',
                    let again :=
                      build_tags verbose markup_escape (pre ++ [src0]) log'
                        (build_dir (build_tags verbose markup_escape tags l d))
                    in
                    failure again = None
                    /\ build_dir again
                       = build_dir (build_tags verbose markup_escape tags l d)).
  { intros l d Hsrc Hd Hf.
    destruct (IH l d f Hf)
      as (pre & src0 & post & -> & Hdir & Hnone & Hin & Hre).
    exists (src :: pre), src0, post. split; [reflexivity|].
    split; [exact Hdir|]. split.
    { destruct (dir !! cache_name src0) eqn:E; [|reflexivity].
      destruct (Hd (cache_name src0)) as [x Hx]; [rewrite E; eauto|].
      congruence. }
    split; [exact Hin|].
    intros log'. cbn zeta. cbn [app build_tags].
    destruct (is_dir src); cbn [negb]; [|apply Hre].
    destruct (Hsrc eq_refl) as [files Hfiles].
    rewrite (build_tags_keeps _ _ _ _ _ Hfiles). apply Hre. }
  (* the failure is here: the directory made for [src] stays *)
  assert (Hhere : forall files,
             is_dir src = true -> dir !! cache_name src = None ->
             exists pre src0 post,
               src :: tags = pre ++ src0 :: post
               /\ is_dir src0 = true
               /\ dir !! cache_name src0 = None
               /\ is_Some (<[cache_name src:=files]> dir !! cache_name src0)
               /\ forall log',
                    let again :=
                      build_tags verbose markup_escape (pre ++ [src0]) log'
                        (<[cache_name src:=files]> dir) in
                    failure again = None
                    /\ build_dir again = <[cache_name src:=files]> dir).
  { intros files Hdir Hnone. exists [], src, tags.
    split; [reflexivity|]. split; [exact Hdir|]. split; [exact Hnone|].
    split; [rewrite lookup_insert_eq; eauto|].
    intros log'. cbn. rewrite Hdir. cbn. now rewrite lookup_insert_eq. }
  cbn [build_tags].
  destruct (is_dir src) eqn:Hdir; cbn [negb].
  - destruct (dir !! cache_name src) eqn:E.
    + intros Hf. apply Hlater; [rewrite E; eauto | auto | exact Hf].
    + destruct (LICENSE src) as [license_|].
      * destruct (build_assets_upto _ _ _ _ _) as [st [e|]].
        -- intros _. cbn [build_dir]. now apply Hhere.
        -- intros Hf. apply Hlater; [| |exact Hf].
           ++ intros _. rewrite lookup_insert_eq. eauto.
           ++ intros name [x Hx].
              destruct (decide (cache_name src = name)) as [<-|Hne];
                [congruence|].
              rewrite lookup_insert_ne by exact Hne. eauto.
      * intros _. cbn [build_dir]. now apply Hhere.
  - intros Hf. apply Hlater; [discriminate | auto | exact Hf].
Qed.

End Tags.

End build_dir_facts.

(** ** [redist.py]: cleaning, assembling, publishing *)

Module dist_facts.
Import redist dirs build_dir_facts.

Lemma build_failure_sticks_witness :
  exists pre src post,
    [samples_dirs.unlicensed] = pre ++ src :: post
    /\ is_dir src = true
    /\ (∅ : gmap string (gmap string string)) !! cache_name src = None
    /\ is_Some (build_dir (build_tags false id [samples_dirs.unlicensed] [] ∅)
                !! cache_name src)
    /\ forall log',
         let again :=
           build_tags false id (pre ++ [src]) log'
             (build_dir (build_tags false id [samples_dirs.unlicensed] [] ∅))
         in
         failure again = None
         /\ build_dir again
            = build_dir (build_tags false id [samples_dirs.unlicensed] [] ∅).
Proof.
  apply (build_failure_sticks false id [samples_dirs.unlicensed] [] ∅
           (FileNotFoundError ".cache/protoc/v3.21.0/LICENSE")).
  reflexivity.
Defined.

Section Tags.
Variables (verbose : bool) (markup_escape : string -> string).

Lemma build_tags_dom (tags : list CacheEntry) :
  forall log_ (dir : gmap string (gmap string string)) name,
    is_Some (build_dir (build_tags verbose markup_escape tags log_ dir)
             !! name) ->
    is_Some (dir !! name)
    \/ exists src, In src tags /\ is_dir src = true /\ cache_name src = name.
Proof.
  induction tags as [|src tags IH]; intros log_ dir name; cbn [build_tags];
    [auto|].
  assert (Hrec : forall l d,
             (forall n, is_Some (d !! n) ->
                        is_Some (dir !! n)
                        \/ (is_dir src = true /\ cache_name src = n)) ->
             is_Some (build_dir (build_tags verbose markup_escape tags l d)
                      !! name) ->
             is_Some (dir !! name)
             \/ exists src0, In src0 (src :: tags) /\ is_dir src0 = true
                             /\ cache_name src0 = name).
  { intros l d Hd H. destruct (IH l d name H) as [H1|(s & Hs & Hdir & Hn)].
    - destruct (Hd _ H1) as [?|[? ?]]; [auto|].
      right. exists src. repeat split; auto. now left.
    - right. exists s. repeat split; auto. now right. }
  assert (Hins : forall files n,
             is_dir src = true ->
             is_Some (<[cache_name src:=files]> dir !! n) ->
             is_Some (dir !! n)
             \/ (is_dir src = true /\ cache_name src = n)).
  { intros files n Hdir.
    destruct (decide (cache_name src = n)) as [<-|Hne]; [auto|].
    rewrite lookup_insert_ne by exact Hne. auto. }
  destruct (is_dir src) eqn:Hdir; cbn [negb]; [|apply Hrec; auto].
  destruct (dir !! cache_name src) eqn:E; [apply Hrec; auto|].
  destruct (LICENSE src) as [license_|].
  - destruct (build_assets_upto _ _ _ _ _) as [st [e|]]; cbn [build_dir].
    + intros H. destruct (Hins _ _ eq_refl H) as [?|[_ ?]]; [auto|].
      right. exists src. repeat split; auto. now left.
    + apply Hrec. intros n. now apply Hins.
  - cbn [build_dir]. intros H.
    destruct (Hins _ _ eq_refl H) as [?|[_ ?]]; [auto|].
    right. exists src. repeat split; auto. now left.
Qed.


End Tags.

Section Wheels.
Variables (verbose win32 : bool) (whl_name tag_rel license_ metadata : string)
  (wheel_of : string -> string).

Lemma assemble_files_spec (exe_files : list ExeFile) :
  forall log_ (dist : gmap string Node),
    let dist' :=
      snd (assemble_files verbose win32 whl_name tag_rel license_ metadata
             wheel_of exe_files log_ dist) in
    (forall k n, dist !! k = Some n -> dist' !! k = Some n)
    /\ (forall k n,
          dist' !! k = Some n ->
          dist !! k = Some n
          \/ exists exe,
               In exe exe_files /\ exe_is_file exe = true
               /\ k = whl_name +:+ "-" +:+ exe_file_name exe +:+ ".whl"
               /\ n = WheelN (assemble_entries win32 whl_name
                                (exe_name_of (exe_file_name exe))
                                (exe_bytes exe) license_ metadata
                                (wheel_of (exe_file_name exe))))
    /\ (forall exe,
          In exe exe_files -> exe_is_file exe = true ->
          is_Some (dist' !! (whl_name +:+ "-" +:+ exe_file_name exe
                             +:+ ".whl"))).
Proof.
  induction exe_files as [|exe exe_files IH]; intros log_ dist;
    cbn [assemble_files].
  { cbn. repeat split; [auto | auto | intros ? []]. }
  assert (Hskip : forall l,
             (exe_is_file exe = true ->
              is_Some (dist !! (whl_name +:+ "-" +:+ exe_file_name exe
                                +:+ ".whl"))) ->
             let dist' :=
               snd (assemble_files verbose win32 whl_name tag_rel license_
                      metadata wheel_of exe_files l dist) in
             (forall k n, dist !! k = Some n -> dist' !! k = Some n)
             /\ (forall k n,
                   dist' !! k = Some n ->
                   dist !! k = Some n
                   \/ exists exe0,
                        In exe0 (exe :: exe_files) /\ exe_is_file exe0 = true
                        /\ k = whl_name +:+ "-" +:+ exe_file_name exe0
                               +:+ ".whl"
                        /\ n = WheelN (assemble_entries win32 whl_name
                                         (exe_name_of (exe_file_name exe0))
                                         (exe_bytes exe0) license_ metadata
                                         (wheel_of (exe_file_name exe0))))
             /\ (forall exe0,
                   In exe0 (exe :: exe_files) -> exe_is_file exe0 = true ->
                   is_Some (dist' !! (whl_name +:+ "-" +:+ exe_file_name exe0
                                      +:+ ".whl")))).
  { intros l Hexe. destruct (IH l dist) as (K & N & A). cbv zeta in *.
    repeat split.
    - exact K.
    - intros k n H. destruct (N k n H) as [?|(e & He & ? & ? & ?)]; [auto|].
      right. exists e. repeat split; auto. now right.
    - intros e [<-|He] Hf; [|now apply A].
      destruct (Hexe Hf) as [n Hn]. exists n. now apply K. }
  destruct (exe_is_file exe) eqn:Hf; cbn [negb].
  - destruct (dist !! (whl_name +:+ "-" +:+ exe_file_name exe +:+ ".whl"))
      as [n0|] eqn:E.
    + apply Hskip. intros _. eauto.
    + destruct (IH log_
                  (<[whl_name +:+ "-" +:+ exe_file_name exe +:+ ".whl" :=
                       WheelN (assemble_entries win32 whl_name
                                 (exe_name_of (exe_file_name exe))
                                 (exe_bytes exe) license_ metadata
                                 (wheel_of (exe_file_name exe)))]> dist))
        as (K & N & A). cbv zeta in *.
      repeat split.
      * intros k n H. apply K. rewrite lookup_insert_ne; [exact H|].
        intros <-. congruence.
      * intros k n H. destruct (N k n H) as [H'|(e & He & ? & ? & ?)].
        -- destruct (decide (whl_name +:+ "-" +:+ exe_file_name exe
                             +:+ ".whl" = k)) as [<-|Hne].
           ++ rewrite lookup_insert_eq in H'. injection H' as <-.
              right. exists exe. repeat split; auto. now left.
           ++ rewrite lookup_insert_ne in H' by exact Hne. auto.
        -- right. exists e. repeat split; auto. now right.
      * intros e [<-|He] Hfe; [|now apply A].
        exists (WheelN (assemble_entries win32 whl_name
                          (exe_name_of (exe_file_name exe))
                          (exe_bytes exe) license_ metadata
                          (wheel_of (exe_file_name exe)))).
        apply K. apply lookup_insert_eq.
  - apply Hskip. discriminate.
Qed.

End Wheels.


Lemma omap_all_None {A B} (f : A -> option B) (l : list A) :
  (forall x, x ∈ l -> f x = None) -> omap f l = [].
Proof.
  induction l as [|x l IH]; intros H; cbn; [reflexivity|].
  rewrite (H x) by left. apply IH. intros y Hy. apply H. now right.
Qed.




End dist_facts.

(** ** [redist.py]: the entries of a wheel *)

Module wheel_more.
Import redist platform_facts.

Lemma append_inj_l (s t u : string) : s +:+ t = s +:+ u -> t = u.
Proof.
  induction s as [|a s IH]; simpl; [auto|]. intros [= H]. now apply IH.
Qed.


End wheel_more.
